(** * jscodeshift-react-i18next: a shallow embedding of [transform.ts]

    The codemod walks a parsed component file, replaces hard-coded text
    (JSX text, a few JSX attributes, template literals) by calls of the
    translation function [t], records the text in a catalog and injects the
    [useTranslation] import and hook.

    Conventions of the embedding
    - a JavaScript string is the list of its UTF-16 code units ([JSString]);
    - the syntax tree is the mutable object graph that ast-types hands to the
      transform: a heap of nodes and arrays, and paths with [parentPath] links;
    - what the transform takes from its host (Unicode tables, the slugify
      character map, the printer) is collected in the class [Host]. *)

From Stdlib Require Import NArith List Ascii String Bool Lia DecimalString.
From stdpp Require Import base option list strings gmap.

Set Warnings "-register-all".
Local Open Scope N_scope.
Local Open Scope list_scope.

(** ** JavaScript strings *)

Module JS.

Definition JSString := list N.
#[global] Typeclasses Transparent JSString.

(** An ASCII string literal of the source, as code units. *)
Definition js (s : string) : JSString :=
  map N_of_ascii (list_ascii_of_string s).

Definition strEq (a b : JSString) : bool := bool_decide (a = b).

(** [Array.prototype.includes] on an array of strings. *)
Definition includes (l : list JSString) (s : JSString) : bool :=
  existsb (strEq s) l.

(** [s.split('')]: one string per code unit. *)
Definition splitChars (s : JSString) : list JSString :=
  map (fun c => [c]) s.

(** The ECMAScript [LineTerminator] production. *)
Definition isLineTerminator (c : N) : bool :=
  (c =? 10) || (c =? 13) || (c =? 8232) || (c =? 8233).

(** The ECMAScript [WhiteSpace] and [LineTerminator] productions: what
    [String.prototype.trim] strips and what [\s] matches. *)
Definition isWhiteSpace (c : N) : bool :=
  (c =? 9) || (c =? 11) || (c =? 12) || (c =? 32) || (c =? 160)
  || (c =? 5760) || ((8192 <=? c) && (c <=? 8202))
  || (c =? 8239) || (c =? 8287) || (c =? 12288) || (c =? 65279)
  || isLineTerminator c.

Fixpoint trimStart (s : JSString) : JSString :=
  match s with
  | c :: r => if isWhiteSpace c then trimStart r else s
  | [] => []
  end.

Definition trimEnd (s : JSString) : JSString :=
  reverse (trimStart (reverse s)).

(** [String.prototype.trim]. *)
Definition trim (s : JSString) : JSString := trimEnd (trimStart s).

(** [s.slice(0, n)]. *)
Definition slice0 (n : nat) (s : JSString) : JSString := take n s.

Definition isUpperAscii (c : N) : bool := (65 <=? c) && (c <=? 90).
Definition isLowerAscii (c : N) : bool := (97 <=? c) && (c <=? 122).
Definition isDigitAscii (c : N) : bool := (48 <=? c) && (c <=? 57).
Definition isAscii (c : N) : bool := c <? 128.

Definition lowerAscii (c : N) : N := if isUpperAscii c then c + 32 else c.

End JS.
Import JS.

(** ** Constants of the transform *)

Module BLACKLIST_TRANSLATION_CHARS.
Definition NUMBERS : JSString := js "0123456789".
(** [$ € £ ¥ ₽ ₺ ₹ ₩ ₪ ₴], every one a single code unit. *)
Definition CURRENCIES : JSString :=
  [36; 8364; 163; 165; 8381; 8378; 8377; 8361; 8362; 8372].
(** full stop, comma, ! ? : ; apostrophe, then the double quote (34) and
    the backtick (96). *)
Definition PUNCTUATION : JSString := js ".,!?:;'" ++ [34; 96].
Definition MATH : JSString := js "+=-*/%<>".
(** [( ) [ ] { } « »] *)
Definition BRACKETS : JSString := js "()[]{}" ++ [171; 187].
(** [@ # $ ^ & | \ ~ · ©] *)
Definition SPECIAL : JSString := js "@#$^&|\~" ++ [183; 169].
Definition SEPARATORS : list JSString := [js " "; js ""; js "-"; js "_"].
End BLACKLIST_TRANSLATION_CHARS.

Module CONSTANTS.
Import BLACKLIST_TRANSLATION_CHARS.

Definition TRANSLATION_KEY_MAX_LENGTH : nat := 40.

Definition JSX_ATTRIBUTES_TO_TRANSLATE : list JSString :=
  [js "alt"; js "aria-label"; js "title"; js "description"].

Definition TEMPLATE_LITERAL_BLACKLIST : list JSString :=
  [js "className"; js "href"; js "src"; js "key"].

Definition TRANSLATION_BLACKLIST : list JSString :=
  splitChars NUMBERS ++ splitChars CURRENCIES ++ splitChars PUNCTUATION
  ++ splitChars MATH ++ splitChars BRACKETS ++ splitChars SPECIAL
  ++ SEPARATORS.
End CONSTANTS.

(** ** Text classifier

    The filter of [transformJSXText]:
    [!CONSTANTS.TRANSLATION_BLACKLIST.includes(path.node.value.trim())]. *)
Definition isTranslatable (text : JSString) : bool :=
  negb (includes CONSTANTS.TRANSLATION_BLACKLIST (trim text)).


(** ** What the transform takes from its host

    The Unicode tables of the JavaScript engine, the character map shipped
    with the slugify package and the recast printer are not part of the
    transform.  They are fields of [Host]; every definition below uses them
    only where the input leaves ASCII (or, for the printer, the two
    expression shapes printed here). *)
Class Host := {
  (** [String.prototype.normalize()] (NFC) on a string that is not ASCII. *)
  unicodeNFC : JSString -> JSString;
  (** [String.prototype.toLowerCase()] on a string that is not ASCII. *)
  unicodeLower : JSString -> JSString;
  (** lodash [lowerFirst] on a string that is not ASCII. *)
  unicodeLowerFirst : JSString -> JSString;
  (** slugify's [charMap]: the replacement of a code unit, if it has one. *)
  charMap : N -> option JSString;
}.

Section Strings.
Context `{Host}.

(** [String.prototype.normalize()]: an ASCII string is its own NFC form. *)
Definition normalize (s : JSString) : JSString :=
  if forallb isAscii s then s else unicodeNFC s.

(** [String.prototype.toLowerCase()]. *)
Definition toLowerCase (s : JSString) : JSString :=
  if forallb isAscii s then map lowerAscii s else unicodeLower s.

(** lodash [_.lowerFirst]. *)
Definition lowerFirst (s : JSString) : JSString :=
  if forallb isAscii s
  then match s with c :: r => lowerAscii c :: r | [] => [] end
  else unicodeLowerFirst s.

(** [s.replace(/\s+/g, r)]: every maximal run of white space becomes [r].
    [inRun] tells that the previous code unit was white space. *)
Fixpoint replaceSpaceRunsFrom (inRun : bool) (r s : JSString) : JSString :=
  match s with
  | [] => []
  | c :: rest =>
      if isWhiteSpace c
      then (if inRun then [] else r) ++ replaceSpaceRunsFrom true r rest
      else c :: replaceSpaceRunsFrom false r rest
  end.

Definition replaceSpaceRuns (r s : JSString) : JSString :=
  replaceSpaceRunsFrom false r s.

(** [text.replace(/\s+/g, ' ').trim()] *)
Definition sanitizeText (text : JSString) : JSString :=
  trim (replaceSpaceRuns (js " ") text).

(** *** slugify

    The algorithm of the slugify package (1.6), for the options the
    transform passes; [locale] is not set, [replacement] is the default. *)
Record SlugifyOptions := {
  remove : N -> bool;   (* the character class of the [remove] regex *)
  lower : bool;
  strict : bool;
  trimOption : bool;
}.

(** [/[^A-Za-z0-9\s]/]: what [strict] deletes. *)
Definition isStrictChar (c : N) : bool :=
  isUpperAscii c || isLowerAscii c || isDigitAscii c || isWhiteSpace c.

Definition slugifyStep (o : SlugifyOptions) (replacement : JSString)
    (result : JSString) (ch : N) : JSString :=
  let appendChar := match charMap ch with Some m => m | None => [ch] end in
  let appendChar :=
    if strEq appendChar replacement then js " " else appendChar in
  result ++ List.filter (fun c => negb (remove o c)) appendChar.

Definition slugify (string : JSString) (o : SlugifyOptions) : JSString :=
  let replacement := js "-" in
  let slug := fold_left (slugifyStep o replacement) (normalize string) [] in
  let slug := if strict o then List.filter isStrictChar slug else slug in
  let slug := if trimOption o then trim slug else slug in
  let slug := replaceSpaceRuns replacement slug in
  if lower o then toLowerCase slug else slug.

(** The character class of the [remove] option: [* + ~ . ( ) ' ! : @] and
    the double quote (34). *)
Definition removeClass (c : N) : bool :=
  existsb (N.eqb c) (js "*+~.()'!:@" ++ [34]).

(** The options [createTranslationKey] passes. *)
Definition keyOptions : SlugifyOptions :=
  {| remove := removeClass; lower := true; strict := true;
     trimOption := true |}.

Definition createTranslationKey (text : JSString) : JSString :=
  slice0 CONSTANTS.TRANSLATION_KEY_MAX_LENGTH (slugify text keyOptions).

(** The alphabet of a key: lower-case letters, digits and the separator. *)
Definition isSlugChar (c : N) : bool :=
  isLowerAscii c || isDigitAscii c || (c =? 45).

Definition isAlnum (c : N) : bool :=
  isUpperAscii c || isLowerAscii c || isDigitAscii c.

(** The slug of [createTranslationKey] before its last step, the lowering. *)
Definition rawSlug (text : JSString) : JSString :=
  replaceSpaceRuns (js "-")
    (trim (List.filter isStrictChar
             (fold_left (slugifyStep keyOptions (js "-")) (normalize text) []))).

End Strings.

(** An excerpt of the host tables, for evaluating the transform on ASCII
    sources: the six ASCII entries of slugify's character map and the
    copyright sign; the Unicode fields are never reached on ASCII input. *)
Definition asciiCharMap (c : N) : option JSString :=
  if c =? 36 then Some (js "dollar")
  else if c =? 37 then Some (js "percent")
  else if c =? 38 then Some (js "and")
  else if c =? 60 then Some (js "less")
  else if c =? 62 then Some (js "greater")
  else if c =? 124 then Some (js "or")
  else if c =? 169 then Some (js "(c)")
  else None.

Definition asciiHost : Host := {|
  unicodeNFC := fun s => s;
  unicodeLower := fun s => s;
  unicodeLowerFirst := fun s => s;
  charMap := asciiCharMap;
|}.

(** ** The syntax tree as ast-types exposes it

    A node is a mutable object with a [type] and fields; a list-valued field
    holds a mutable array.  Both live in a heap, so that the aliasing the
    transform creates (an expression reused in a new node, a body wrapped in
    a new block) is the aliasing of the model. *)

Module AST.

Inductive Val :=
| VUndefined
| VNull
| VBool (b : bool)
| VStr (s : JSString)
| VRef (l : nat).

#[global] Instance Val_eq_dec : EqDecision Val.
Proof. solve_decision. Defined.

Inductive Obj :=
| ONode (type : string) (fields : list (string * Val))
| OArray (elems : list Val).

Abbreviation Heap := (list Obj).

(** A tree without sharing: what the parser returns and what the printer
    sees; also the argument of the ast-types builders, where a leaf
    [TVal (VRef l)] is an object that already exists. *)
Inductive Tree :=
| TVal (v : Val)
| TArr (elems : list Tree)
| TNode (type : string) (fields : list (string * Tree)).

Fixpoint getField (fs : list (string * Val)) (f : string) : Val :=
  match fs with
  | [] => VUndefined
  | (g, v) :: r => if String.eqb g f then v else getField r f
  end.

Fixpoint setField (fs : list (string * Val)) (f : string) (v : Val)
    : list (string * Val) :=
  match fs with
  | [] => [(f, v)]
  | (g, w) :: r =>
      if String.eqb g f then (g, v) :: r else (g, w) :: setField r f v
  end.

Definition lookupObj (h : Heap) (v : Val) : option Obj :=
  match v with
  | VRef l => h !! l
  | _ => None
  end.

(** [v.f], and [v?.f]: reading a property; [undefined] when there is none. *)
Definition prop (h : Heap) (v : Val) (f : string) : Val :=
  match lookupObj h v with
  | Some (ONode _ fs) => getField fs f
  | _ => VUndefined
  end.

(** [v.type], the empty string when [v] is not a node. *)
Definition typeOf (h : Heap) (v : Val) : string :=
  match lookupObj h v with
  | Some (ONode ty _) => ty
  | _ => EmptyString
  end.

(** [v[i]] on an array. *)
Definition elemAt (h : Heap) (v : Val) (i : nat) : Val :=
  match lookupObj h v with
  | Some (OArray vs) => default VUndefined (vs !! i)
  | _ => VUndefined
  end.

Definition lengthOf (h : Heap) (v : Val) : nat :=
  match lookupObj h v with
  | Some (OArray vs) => length vs
  | _ => 0%nat
  end.

(** A string-valued property (node names and text are strings in the
    ast-types schema). *)
Definition strOf (v : Val) : JSString :=
  match v with
  | VStr s => s
  | _ => []
  end.

(** The subtypes ast-types declares for the types the transform checks. *)
Definition subtypes (ty : string) : list string :=
  if String.eqb ty "CallExpression"
  then ["CallExpression"; "OptionalCallExpression"]%string
  else [ty].

(** [j.T.check(v)] *)
Definition check (h : Heap) (ty : string) (v : Val) : bool :=
  existsb (String.eqb (typeOf h v)) (subtypes ty).

(** Allocation of a list of things, left to right. *)
Definition allocAll {A} (allocOne : A -> Heap -> Val * Heap)
    : list A -> Heap -> list Val * Heap :=
  fix go (xs : list A) (h : Heap) : list Val * Heap :=
    match xs with
    | [] => ([], h)
    | x :: r =>
        let '(v, h1) := allocOne x h in
        let '(vs, h2) := go r h1 in
        (v :: vs, h2)
    end.

(** Allocation of a tree of fresh objects: the children first, then the
    object itself at the end of the heap. *)
Fixpoint alloc (t : Tree) (h : Heap) : Val * Heap :=
  match t with
  | TVal v => (v, h)
  | TArr ts =>
      let '(vs, h1) := allocAll alloc ts h in
      (VRef (length h1), h1 ++ [OArray vs])
  | TNode ty fs =>
      let '(vs, h1) := allocAll (fun ft => alloc (snd ft)) fs h in
      (VRef (length h1), h1 ++ [ONode ty (combine (map fst fs) vs)])
  end.

(** The tree below a value; [fuel] bounds the depth. *)
Fixpoint reify (fuel : nat) (h : Heap) (v : Val) : Tree :=
  match fuel with
  | O => TVal VUndefined
  | S n =>
      match lookupObj h v with
      | Some (ONode ty fs) =>
          TNode ty (map (fun fv => (fst fv, reify n h (snd fv))) fs)
      | Some (OArray vs) => TArr (map (reify n h) vs)
      | None =>
          match v with
          | VRef _ => TVal VUndefined
          | _ => TVal v
          end
      end
  end.

(** *** Paths *)

Inductive PName :=
| Root
| Field (f : string)
| Index (i : nat).

Inductive ASTPath :=
| Path (value : Val) (name : PName) (parentPath : option ASTPath).

Definition value (p : ASTPath) : Val := let 'Path v _ _ := p in v.
Definition name (p : ASTPath) : PName := let 'Path _ n _ := p in n.
Definition parentPath (p : ASTPath) : option ASTPath :=
  let 'Path _ _ pp := p in pp.

(** [p?.value] for an optional path. *)
Definition valueOpt (p : option ASTPath) : Val :=
  match p with
  | Some q => value q
  | None => VUndefined
  end.

(** The child paths of [p], in the order ast-types visits them. *)
Definition children (h : Heap) (p : ASTPath) : list ASTPath :=
  match lookupObj h (value p) with
  | Some (ONode _ fs) => map (fun fv => Path (snd fv) (Field (fst fv)) (Some p)) fs
  | Some (OArray vs) => imap (fun i v => Path v (Index i) (Some p)) vs
  | None => []
  end.

(** [collection.find(j.T)]: the paths of type [T] strictly below [p], in
    preorder.  [fuel] bounds the depth of the walk. *)
Fixpoint findFrom (fuel : nat) (h : Heap) (ty : string) (p : ASTPath)
    : list ASTPath :=
  match fuel with
  | O => []
  | S n =>
      flat_map
        (fun c => (if check h ty (value c) then [c] else [])
                  ++ findFrom n h ty c)
        (children h p)
  end.

Definition find (h : Heap) (ty : string) (p : ASTPath) : list ASTPath :=
  findFrom (S (length h)) h ty p.

(** [Array.prototype.indexOf] *)
Fixpoint indexOf (vs : list Val) (v : Val) : option nat :=
  match vs with
  | [] => None
  | w :: r => if bool_decide (w = v) then Some 0%nat else S <$> indexOf r v
  end.

Definition insertAt {A} (i : nat) (x : A) (l : list A) : list A :=
  take i l ++ x :: drop i l.

(** [path.replace(r)] of ast-types, with its repair of the link to the
    parent: in an array the element is looked up again when it has moved;
    in a node the field named by the path is overwritten.  (Where ast-types
    would raise an error, because the value is no longer in the array, the
    heap is left as it is.) *)
Definition replace (h : Heap) (p : ASTPath) (r : Val) : Heap :=
  match parentPath p with
  | None => h
  | Some pp =>
      match value pp, lookupObj h (value pp), name p with
      | VRef l, Some (OArray vs), Index i =>
          let at_ :=
            if bool_decide (vs !! i = Some (value p)) then Some i
            else indexOf vs (value p) in
          match at_ with
          | Some k => <[l := OArray (<[k := r]> vs)]> h
          | None => h
          end
      | VRef l, Some (ONode ty fs), Field f =>
          <[l := ONode ty (setField fs f r)]> h
      | _, _, _ => h
      end
  end.

(** [path.insertBefore(r)]: [r] is spliced into the parent array at the
    index of the path. *)
Definition insertBefore (h : Heap) (p : ASTPath) (r : Val) : Heap :=
  match parentPath p with
  | None => h
  | Some pp =>
      match value pp, lookupObj h (value pp), name p with
      | VRef l, Some (OArray vs), Index i =>
          <[l := OArray (insertAt i r vs)]> h
      | _, _, _ => h
      end
  end.

(** [array.unshift(x)] *)
Definition unshift (h : Heap) (arr : Val) (x : Val) : Heap :=
  match arr, lookupObj h arr with
  | VRef l, Some (OArray vs) => <[l := OArray (x :: vs)]> h
  | _, _ => h
  end.

(** [node.f = x] *)
Definition assign (h : Heap) (node : Val) (f : string) (x : Val) : Heap :=
  match node, lookupObj h node with
  | VRef l, Some (ONode ty fs) => <[l := ONode ty (setField fs f x)]> h
  | _, _ => h
  end.

(** *** Builders ([j.identifier], [j.literal], ...) *)

Definition tstr (s : JSString) : Tree := TVal (VStr s).

Definition identifier (n : JSString) : Tree :=
  TNode "Identifier" [("name", tstr n)]%string.
Definition literal (s : JSString) : Tree :=
  TNode "Literal" [("value", tstr s)]%string.
Definition importSpecifier (imported : Tree) : Tree :=
  TNode "ImportSpecifier" [("imported", imported)]%string.
Definition importDeclaration (specifiers : list Tree) (source : Tree) : Tree :=
  TNode "ImportDeclaration"
    [("specifiers", TArr specifiers); ("source", source)]%string.
Definition objectProperty (key val : Tree) (shorthand : bool) : Tree :=
  TNode "ObjectProperty"
    [("key", key); ("value", val); ("shorthand", TVal (VBool shorthand));
     ("computed", TVal (VBool false))]%string.
Definition objectPattern (properties : list Tree) : Tree :=
  TNode "ObjectPattern" [("properties", TArr properties)]%string.
Definition objectExpression (properties : list Tree) : Tree :=
  TNode "ObjectExpression" [("properties", TArr properties)]%string.
Definition callExpression (callee : Tree) (arguments : list Tree) : Tree :=
  TNode "CallExpression"
    [("callee", callee); ("arguments", TArr arguments)]%string.
Definition variableDeclarator (id init : Tree) : Tree :=
  TNode "VariableDeclarator" [("id", id); ("init", init)]%string.
Definition variableDeclaration (kind : JSString) (declarations : list Tree)
    : Tree :=
  TNode "VariableDeclaration"
    [("kind", tstr kind); ("declarations", TArr declarations)]%string.
Definition blockStatement (body : list Tree) : Tree :=
  TNode "BlockStatement" [("body", TArr body)]%string.
Definition returnStatement (argument : Tree) : Tree :=
  TNode "ReturnStatement" [("argument", argument)]%string.
Definition jsxExpressionContainer (expression : Tree) : Tree :=
  TNode "JSXExpressionContainer" [("expression", expression)]%string.
Definition jsxAttribute (name value : Tree) : Tree :=
  TNode "JSXAttribute" [("name", name); ("value", value)]%string.

End AST.
Import AST.

(** ** The transform *)

(** [interface Translations { [componentName]: { [key]: string } }] *)
Abbreviation TranslationEntry := (gmap JSString JSString).
Abbreviation Translations := (gmap JSString (gmap JSString JSString)).

(** [TransformContext]; the field [heap] is the object graph that [j] and
    [root] work on, which JavaScript mutates in place. *)
Record TransformContext := {
  heap : Heap;
  root : ASTPath;
  translations : Translations;
  importPackage : JSString;
}.

Definition withHeap (ctx : TransformContext) (h : Heap) : TransformContext :=
  {| heap := h; root := root ctx; translations := translations ctx;
     importPackage := importPackage ctx |}.

Definition withTranslations (ctx : TransformContext) (t : Translations)
    : TransformContext :=
  {| heap := heap ctx; root := root ctx; translations := t;
     importPackage := importPackage ctx |}.

(** [translations[componentName] = { ...translations[componentName],
    [key]: value }] *)
Definition addTranslation (t : Translations) (componentName key value : JSString)
    : Translations :=
  <[componentName := <[key := value]> (default ∅ (t !! componentName))]> t.

(** [x ?? 'UnknownFunction'] for a name read from a node. *)
Definition orUnknownFunction (v : Val) : JSString :=
  match v with
  | VUndefined | VNull => js "UnknownFunction"
  | _ => strOf v
  end.

Definition getFunctionName (h : Heap) (fd : ASTPath) : JSString :=
  if check h "ArrowFunctionExpression" (value fd) then
    orUnknownFunction (prop h (prop h (valueOpt (parentPath fd)) "id") "name")
  else if check h "FunctionDeclaration" (value fd) then
    orUnknownFunction (prop h (prop h (value fd) "id") "name")
  else js "UnknownFunction".

Definition isFunctionAST (h : Heap) (v : Val) : bool :=
  check h "FunctionDeclaration" v || check h "ArrowFunctionExpression" v.

Fixpoint closestFunctionFrom (h : Heap) (path : ASTPath) : option ASTPath :=
  match path with
  | Path v _ pp =>
      if isFunctionAST h v then Some path
      else match pp with
           | Some q => closestFunctionFrom h q
           | None => None
           end
  end.

Definition getClosestFunctionAST (h : Heap) (path : option ASTPath)
    : option ASTPath :=
  match path with
  | None => None
  | Some p => closestFunctionFrom h p
  end.

(** *** Translation setup *)

Definition importsFrom (h : Heap) (importPackage : JSString) (path : ASTPath)
    : bool :=
  bool_decide (prop h (prop h (value path) "source") "value"
               = VStr importPackage).

(** When the file has no import declaration, [.at(0)] is an empty
    collection and [insertBefore] has nothing to insert before; the
    declaration that was built is dropped. *)
Definition ensureTranslationImport (ctx : TransformContext) : TransformContext :=
  let h := heap ctx in
  let hasImport :=
    existsb (importsFrom h (importPackage ctx))
      (find h "ImportDeclaration" (root ctx)) in
  if hasImport then ctx
  else
    match head (find h "ImportDeclaration" (root ctx)) with
    | None => ctx
    | Some first =>
        let '(importDecl, h1) :=
          alloc (importDeclaration
                   [importSpecifier (identifier (js "useTranslation"))]
                   (literal (importPackage ctx))) h in
        withHeap ctx (insertBefore h1 first importDecl)
    end.

Definition isUseTranslationCall (h : Heap) (path : ASTPath) : bool :=
  String.eqb (typeOf h (prop h (value path) "callee")) "Identifier"
  && bool_decide (prop h (prop h (value path) "callee") "name"
                  = VStr (js "useTranslation")).

Definition hasHook (h : Heap) (functionAST : ASTPath) : bool :=
  existsb (isUseTranslationCall h) (find h "CallExpression" functionAST).

(** [const { t } = useTranslation();] *)
Definition hookDeclaration : Tree :=
  variableDeclaration (js "const")
    [variableDeclarator
       (objectPattern
          [objectProperty (identifier (js "t")) (identifier (js "t")) true])
       (callExpression (identifier (js "useTranslation")) [])].

(** The objects [j.variableDeclaration(...)] allocates for the hook in a
    heap of [n] objects; the declaration itself is the last one, [n + 10]. *)
Definition hookObjects (n : nat) : list Obj :=
  [ONode "Identifier" [("name", VStr (js "t"))];
   ONode "Identifier" [("name", VStr (js "t"))];
   ONode "ObjectProperty"
     [("key", VRef n); ("value", VRef (n + 1));
      ("shorthand", VBool true); ("computed", VBool false)];
   OArray [VRef (n + 2)];
   ONode "ObjectPattern" [("properties", VRef (n + 3))];
   ONode "Identifier" [("name", VStr (js "useTranslation"))];
   OArray [];
   ONode "CallExpression"
     [("callee", VRef (n + 5)); ("arguments", VRef (n + 6))];
   ONode "VariableDeclarator"
     [("id", VRef (n + 4)); ("init", VRef (n + 7))];
   OArray [VRef (n + 8)];
   ONode "VariableDeclaration"
     [("kind", VStr (js "const")); ("declarations", VRef (n + 9))]]%string.

Definition ensureTranslationHook (ctx : TransformContext) (functionAST : ASTPath)
    : TransformContext :=
  let h := heap ctx in
  if hasHook h functionAST then ctx
  else if isFunctionAST h (value functionAST) then
    let '(hook, h1) := alloc hookDeclaration h in
    let functionBody := prop h1 (value functionAST) "body" in
    if check h1 "BlockStatement" functionBody then
      withHeap ctx (unshift h1 (prop h1 functionBody "body") hook)
    else
      let '(block, h2) :=
        alloc (blockStatement
                 [TVal hook; returnStatement (TVal functionBody)]) h1 in
      withHeap ctx (assign h2 (value functionAST) "body" block)
  else ctx.

(** [root = j(file.source)] with the loaded catalog and the package name. *)
Definition initialContext (source : Tree) (importName : JSString)
    (loaded : Translations) : TransformContext :=
  let '(file, h) := alloc source [] in
  {| heap := h; root := Path file Root None;
     translations := loaded; importPackage := importName |}.

(** The path itself and the paths its [parentPath] links lead to. *)
Fixpoint ancestors (path : ASTPath) : list ASTPath :=
  match path with
  | Path _ _ pp =>
      path :: match pp with
              | Some q => ancestors q
              | None => []
              end
  end.

(** [j(path).replaceWith(node)] *)
Definition replaceWith (ctx : TransformContext) (path : ASTPath) (node : Tree)
    : TransformContext :=
  let '(v, h1) := alloc node (heap ctx) in
  withHeap ctx (replace h1 path v).

(** [t('componentName.key', ...)] *)
Definition translationCall (componentName key : JSString) (more : list Tree)
    : Tree :=
  callExpression (identifier (js "t"))
    (literal (componentName ++ js "." ++ key) :: more).

(** *** Helpers of the template pass *)

(** The code units of [String(n)] for a loop index. *)
Definition decimal (n : nat) : JSString :=
  js (DecimalString.NilZero.string_of_uint (Nat.to_uint n)).

(** A value interpolated into a template string. *)
Definition interpolate (v : Val) : JSString :=
  match v with
  | VStr s => s
  | VNull => js "null"
  | VUndefined => js "undefined"
  | VBool true => js "true"
  | VBool false => js "false"
  | VRef _ => js "[object Object]"
  end.

(** [source.split('.').pop()]: what follows the last full stop. *)
Fixpoint lastSegmentFrom (acc : JSString) (s : JSString) : JSString :=
  match s with
  | [] => acc
  | c :: r => if c =? 46 then lastSegmentFrom [] r
              else lastSegmentFrom (acc ++ [c]) r
  end.

Definition lastSegment (s : JSString) : JSString := lastSegmentFrom [] s.

(** [j(expression).toSource()].  recast prints a node that came from the
    parser with the text it had in the file; the model keeps that text in
    the field [loc]. *)
Definition toSource (h : Heap) (expression : Val) : JSString :=
  strOf (prop h expression "loc").

(** The length of a match of [.*?\}\}] at the head of [s], if there is one:
    [.] stops at a line terminator, [*?] at the first closing pair. *)
Fixpoint closingAt (s : JSString) : option nat :=
  match s with
  | [] => None
  | c :: t =>
      if (c =? 125) && match t with d :: _ => d =? 125 | [] => false end
      then Some 2%nat
      else if isLineTerminator c then None
      else S <$> closingAt t
  end.

(** The length of a match of [\{\{.*?\}\}] at the head of [s]. *)
Definition placeholderAt (s : JSString) : option nat :=
  match s with
  | c :: d :: t =>
      if (c =? 123) && (d =? 123) then (fun n => S (S n)) <$> closingAt t
      else None
  | _ => None
  end.

(** [s.replace(/\{\{.*?\}\}/g, '')]; [skip] counts the code units of the
    current match that are still to be dropped. *)
Fixpoint removePlaceholdersFrom (skip : nat) (s : JSString) : JSString :=
  match s with
  | [] => []
  | c :: t =>
      match skip with
      | S k => removePlaceholdersFrom k t
      | O =>
          match placeholderAt s with
          | Some n => removePlaceholdersFrom (pred n) t
          | None => c :: removePlaceholdersFrom O t
          end
      end
  end.

Definition removePlaceholders (s : JSString) : JSString :=
  removePlaceholdersFrom O s.

(** A code unit of a placeholder name that is neither white space nor a
    closing brace, as in every identifier. *)
Definition isNameUnit (c : N) : bool :=
  negb (isWhiteSpace c) && negb (c =? 125).

(** The text the template loop builds for the chunks [Hello ], [, role ]
    and the empty chunk, with the placeholder names [n1] and [n2]. *)
Definition helloRoleText (n1 n2 : JSString) : JSString :=
  js "Hello " ++ js "{{" ++ n1 ++ js "}}"
  ++ js ", role " ++ js "{{" ++ n2 ++ js "}}".

Section Transformers.
Context `{Host}.

(** *** JSX text *)

Definition jsxTextFilter (h : Heap) (path : ASTPath) : bool :=
  isTranslatable (strOf (prop h (value path) "value")).

Definition jsxTextVisit (ctx : TransformContext) (path : ASTPath)
    : TransformContext :=
  match getClosestFunctionAST (heap ctx) (Some path) with
  | None => ctx
  | Some functionAST =>
      let componentName :=
        lowerFirst (getFunctionName (heap ctx) functionAST) in
      let value_ := sanitizeText (strOf (prop (heap ctx) (value path) "value")) in
      let key := createTranslationKey value_ in
      let ctx :=
        withTranslations ctx
          (addTranslation (translations ctx) componentName key value_) in
      let ctx := ensureTranslationImport ctx in
      let ctx := ensureTranslationHook ctx functionAST in
      replaceWith ctx path
        (jsxExpressionContainer (translationCall componentName key []))
  end.

Definition transformJSXText (ctx : TransformContext) : TransformContext :=
  fold_left jsxTextVisit
    (List.filter (jsxTextFilter (heap ctx))
       (find (heap ctx) "JSXText" (root ctx)))
    ctx.

(** *** JSX attributes *)

Definition isTranslatableAttribute (attr : JSString) : bool :=
  includes CONSTANTS.JSX_ATTRIBUTES_TO_TRANSLATE attr.

Definition jsxAttributeFilter (h : Heap) (path : ASTPath) : bool :=
  if negb (check h "StringLiteral" (prop h (value path) "value")) then false
  else
    match prop h (prop h (value path) "name") "name" with
    | VStr jsxAttribute => isTranslatableAttribute jsxAttribute
    | _ => false
    end.

Definition jsxAttributeVisit (ctx : TransformContext) (path : ASTPath)
    : TransformContext :=
  if negb (check (heap ctx) "StringLiteral" (prop (heap ctx) (value path) "value"))
  then ctx
  else
    match getClosestFunctionAST (heap ctx) (Some path) with
    | None => ctx
    | Some functionAST =>
        let componentName :=
          lowerFirst (getFunctionName (heap ctx) functionAST) in
        let value_ :=
          sanitizeText
            (strOf (prop (heap ctx) (prop (heap ctx) (value path) "value")
                      "value")) in
        let key := createTranslationKey value_ in
        let ctx :=
          withTranslations ctx
            (addTranslation (translations ctx) componentName key value_) in
        let ctx := ensureTranslationImport ctx in
        let ctx := ensureTranslationHook ctx functionAST in
        replaceWith ctx path
          (jsxAttribute (TVal (prop (heap ctx) (value path) "name"))
             (jsxExpressionContainer (translationCall componentName key [])))
    end.

Definition transformJSXAttributes (ctx : TransformContext) : TransformContext :=
  fold_left jsxAttributeVisit
    (List.filter (jsxAttributeFilter (heap ctx))
       (find (heap ctx) "JSXAttribute" (root ctx)))
    ctx.

(** *** Template literals *)

Definition templateLiteralFilter (h : Heap) (path : ASTPath) : bool :=
  let grandParent := valueOpt (parentPath path ≫= parentPath) in
  if check h "JSXAttribute" grandParent
     && match prop h grandParent "name" with
        | VRef _ => true
        | _ => false
        end
     && match prop h (prop h grandParent "name") "name" with
        | VStr n => includes CONSTANTS.TEMPLATE_LITERAL_BLACKLIST n
        | _ => false
        end
  then false
  else if String.eqb (typeOf h (valueOpt (parentPath path)))
            "TaggedTemplateExpression"
  then false
  else true.

(** The name a placeholder gets for the [i]-th expression. *)
Definition variableName (h : Heap) (i : nat) (expression : Val) : JSString :=
  if String.eqb (typeOf h expression) "Identifier" then
    strOf (prop h expression "name")
  else if String.eqb (typeOf h expression) "MemberExpression" then
    match lastSegment (toSource h expression) with
    | [] => js "var" ++ decimal (i + 1)
    | n => n
    end
  else js "var" ++ decimal (i + 1).

(** [path.value.quasis[i].value.cooked] *)
Definition cooked (h : Heap) (template : Val) (i : nat) : JSString :=
  interpolate
    (prop h (prop h (elemAt h (prop h template "quasis") i) "value") "cooked").

(** The loop over the expressions: the text so far, the properties so far,
    the index reached. *)
Fixpoint templateLoop (h : Heap) (template : Val) (expressions : list Val)
    (i : nat) (text : JSString) (expressionProperties : list Tree)
    : JSString * list Tree * nat :=
  match expressions with
  | [] => (text, expressionProperties, i)
  | expression :: rest =>
      let varName := variableName h i expression in
      templateLoop h template rest (S i)
        (text ++ cooked h template i ++ js "{{" ++ varName ++ js "}}")
        (expressionProperties ++
           [objectProperty (identifier varName) (TVal expression)
              (String.eqb (typeOf h expression) "Identifier"
               && bool_decide (prop h expression "name" = VStr varName))])
  end.

Definition expressionsOf (h : Heap) (template : Val) : list Val :=
  match lookupObj h (prop h template "expressions") with
  | Some (OArray es) => es
  | _ => []
  end.

(** The translation text and the bindings of a template literal. *)
Definition templateParts (h : Heap) (template : Val) : JSString * list Tree :=
  let '(text, expressionProperties, i) :=
    templateLoop h template (expressionsOf h template) 0 [] [] in
  (text ++ cooked h template i, expressionProperties).

Definition templateLiteralVisit (ctx : TransformContext) (path : ASTPath)
    : TransformContext :=
  match getClosestFunctionAST (heap ctx) (Some path) with
  | None => ctx
  | Some functionAST =>
      let componentName :=
        lowerFirst (getFunctionName (heap ctx) functionAST) in
      let '(text, expressionProperties) :=
        templateParts (heap ctx) (value path) in
      let value_ := sanitizeText text in
      let key := createTranslationKey (removePlaceholders value_) in
      let ctx :=
        withTranslations ctx
          (addTranslation (translations ctx) componentName key value_) in
      let ctx := ensureTranslationImport ctx in
      let ctx := ensureTranslationHook ctx functionAST in
      replaceWith ctx path
        (translationCall componentName key
           (match expressionProperties with
            | [] => []
            | _ => [objectExpression expressionProperties]
            end))
  end.

Definition transformTemplateLiterals (ctx : TransformContext)
    : TransformContext :=
  fold_left templateLiteralVisit
    (List.filter (templateLiteralFilter (heap ctx))
       (find (heap ctx) "TemplateLiteral" (root ctx)))
    ctx.

(** *** The entry point

    [source] is the tree [j(file.source)] parses, the result the tree
    [root.toSource()] prints; [loaded] is what [readTranslations]
    returned and the second component of the result what
    [writeTranslations] is given.  [None] is the error for a missing
    option. *)
Definition toTree (h : Heap) (v : Val) : Tree := reify (S (length h)) h v.

(** The three passes, one after the other, on the same context. *)
Definition applyTransformations (context : TransformContext) : TransformContext :=
  transformTemplateLiterals (transformJSXAttributes (transformJSXText context)).

Definition transform (source : Tree) (translationFilePath importName : JSString)
    (loaded : Translations) : option (Tree * Translations) :=
  match translationFilePath, importName with
  | [], _ | _, [] => None
  | _, _ =>
      let context :=
        applyTransformations (initialContext source importName loaded) in
      Some (toTree (heap context) (value (root context)), translations context)
  end.

End Transformers.

(** ** File operations *)

Module FileOperations.

(** What [JSON.parse] returns.  A number is kept as its text. *)
Inductive JSON :=
| JNull
| JBool (b : bool)
| JNumber (text : JSString)
| JString (s : JSString)
| JArray (items : list JSON)
| JObject (members : list (JSString * JSON)).

(** What an expression of [readTranslations] evaluates to. *)
Inductive JSValue :=
| Undefined
| Data (j : JSON)
| Builtin (what : JSString).   (* a member found on a prototype *)

Fixpoint ownMember (members : list (JSString * JSON)) (k : JSString)
    : option JSON :=
  match members with
  | [] => None
  | (k', v) :: r => if strEq k' k then Some v else ownMember r k
  end.

Section ReadTranslations.

(** [fs.readFileSync(path, 'utf8')]: the content, [None] when it throws. *)
Variable readFileSync : JSString -> option JSString.
(** [JSON.parse]: [None] when it throws. *)
Variable parse : JSString -> option JSON.
(** What a key that is not an own member of an object yields: a member of
    a prototype, an element or the length of an array or string, or
    [Undefined]. *)
Variable otherMember : JSON -> JSString -> JSValue.

(** [parsed[key]]; [None] is the [TypeError] of reading a member of
    [null]. *)
Definition member (parsed : JSON) (key : JSString) : option JSValue :=
  match parsed with
  | JNull => None
  | JObject members =>
      match ownMember members key with
      | Some v => Some (Data v)
      | None => Some (otherMember parsed key)
      end
  | _ => Some (otherMember parsed key)
  end.

(** The [try] block; [None] when one of its steps throws. *)
Definition readTranslationsTry (path : JSString)
    (translationRoot : option JSString) : option JSValue :=
  data ← readFileSync path;
  parsedTranslations ← parse data;
  match translationRoot with
  | Some (c :: r) => member parsedTranslations (c :: r)
  | Some [] | None => Some (Data parsedTranslations)
  end.

Definition readTranslations (path : JSString)
    (translationRoot : option JSString) : JSValue :=
  match readTranslationsTry path translationRoot with
  | Some v => v
  | None => Data (JObject [])
  end.

End ReadTranslations.

End FileOperations.

(** ** What a pass may write

    The vocabulary of the frame properties: a pass replaces the nodes it
    selects where they hang (the slot of an array, the field of a node),
    puts the hook into the body of a function and the import into an array
    of declarations, and allocates new objects; it writes nothing else. *)

Definition isFunctionType (ty : string) : bool :=
  String.eqb ty "FunctionDeclaration"
  || String.eqb ty "ArrowFunctionExpression".

(** [path] hangs in the field [f] of the node at [l]. *)
Definition isFieldOf (l : nat) (f : string) (path : ASTPath) : Prop :=
  valueOpt (parentPath path) = VRef l /\ name path = Field f.

Record Frame (selected : list ASTPath) (h h' : Heap) : Prop := {
  (** an array stays an array and keeps every element that is not the node
      of a selected path; *)
  frame_array :
    forall l vs,
      h !! l = Some (OArray vs) ->
      exists vs',
        h' !! l = Some (OArray vs')
        /\ forall v,
             In v vs -> (forall p, In p selected -> value p <> v) -> In v vs';
  (** a node keeps its type and every field in which no selected path
      hangs, but for the body of a function. *)
  frame_node :
    forall l ty fs,
      h !! l = Some (ONode ty fs) ->
      exists fs',
        h' !! l = Some (ONode ty fs')
        /\ forall f,
             isFunctionType ty = false \/ f <> "body"%string ->
             (forall p, In p selected -> ~ isFieldOf l f p) ->
             getField fs' f = getField fs f;
}.

(** The heap [ensureTranslationHook] leaves when the body of the function
    at [f] is an expression: the objects of the hook, then the statement
    [return body], the array of the two statements and the block; the
    function points to the block. *)
Definition wrappedHeap (h : Heap) (f : nat) (ty : string)
    (fields : list (string * Val)) : Heap :=
  let n := length h in
  <[f := ONode ty (setField fields "body" (VRef (n + 13)))]>
    (h ++ hookObjects n
       ++ [ONode "ReturnStatement" [("argument", getField fields "body")];
           OArray [VRef (n + 10); VRef (n + 11)];
           ONode "BlockStatement" [("body", VRef (n + 12))]]%string).

(** ** Vocabulary of the further properties *)

(** What [slugifyStep] appends, with the options of the transform, for a
    code unit that has no entry in the character map: the unit itself, a
    space for the separator, nothing for a unit of the [remove] class. *)
Definition plainChunk (c : N) : JSString :=
  List.filter (fun d => negb (removeClass d))
    (if strEq [c] (js "-") then js " " else [c]).

(** [translations[componentName]?.[key]]: the text recorded for a key of a
    component, if there is one. *)
Definition entryOf (t : Translations) (componentName key : JSString)
    : option JSString :=
  t !! componentName ≫= (fun entry => entry !! key).

(** The heap [ensureTranslationHook] leaves when the body of the function
    is a block whose statements are the array at [a]: the objects of the
    hook are allocated and the declaration is put in front of the
    statements. *)
Definition unshiftedHeap (h : Heap) (a : nat) (statements : list Val) : Heap :=
  let n := length h in
  <[a := OArray (VRef (n + 10) :: statements)]> (h ++ hookObjects n).

(** The values an object holds: what the child paths of a path lead to. *)
Definition childValues (h : Heap) (v : Val) : list Val :=
  match lookupObj h v with
  | Some (ONode _ fs) => map snd fs
  | Some (OArray vs) => vs
  | None => []
  end.

(** [reaches h k u v]: [v] is [k] child steps below [u]. *)
Inductive reaches (h : Heap) : nat -> Val -> Val -> Prop :=
| reaches_here u : reaches h 0 u u
| reaches_step k u w v :
    In w (childValues h u) -> reaches h k w v -> reaches h (S k) u v.

(** The objects [j.importDeclaration(...)] allocates for the import of
    [useTranslation] in a heap of [n] objects; the declaration is the last
    one, [n + 4]. *)
Definition importObjects (n : nat) (importPackage : JSString) : list Obj :=
  [ONode "Identifier" [("name", VStr (js "useTranslation"))];
   ONode "ImportSpecifier" [("imported", VRef n)];
   OArray [VRef (n + 1)];
   ONode "Literal" [("value", VStr importPackage)];
   ONode "ImportDeclaration"
     [("specifiers", VRef (n + 2)); ("source", VRef (n + 3))]]%string.

(** A tree as the parser returns it: no leaf refers to an object that is
    already there. *)
Fixpoint parsed (t : Tree) : bool :=
  match t with
  | TVal (VRef _) => false
  | TVal _ => true
  | TArr ts => forallb parsed ts
  | TNode _ fs => forallb (fun ft => parsed (snd ft)) fs
  end.




(** ** Writing the catalog

    The files that [fs] reads and writes are a store from paths to
    contents; [writeFileSync] is modelled where it succeeds (where it
    fails it throws, and the transform with it). *)
Definition Files := JSString -> option JSString.

(** [fs.writeFileSync(path, data)] *)
Definition writeFileSync (files : Files) (path data : JSString) : Files :=
  fun p => if strEq p path then Some data else files p.

Section WriteTranslations.
Import FileOperations.

(** [stringify] of json-stable-stringify, called with [{ space: 2 }]. *)
Variable stringify : JSON -> JSString.

(** [translationRoot ? { [translationRoot]: translations } : translations] *)
Definition finalTranslations (translations : JSON)
    (translationRoot : option JSString) : JSON :=
  match translationRoot with
  | Some (c :: r) => JObject [(c :: r, translations)]
  | Some [] | None => translations
  end.

Definition writeTranslations (files : Files) (path : JSString)
    (translations : JSON) (translationRoot : option JSString) : Files :=
  let result := stringify (finalTranslations translations translationRoot) in
  writeFileSync files path result.

End WriteTranslations.

(** ** The earlier script (unnamed/part_002): its deny-list

    The earlier version of the codemod lists the characters one by one and
    has the digits twice, as numbers and as strings;
    [Array.prototype.includes] compares with SameValueZero, under which a
    number is equal to no string. *)
Module Legacy.

Inductive Entry :=
| Num (n : N)
| Str (s : JSString).

(** [$ € £ ¥ ₽ ₺ ₹ ₩ ₪ ₴] *)
Definition CURRENCIES_SYMBOLS : list Entry :=
  map (fun c => Str [c])
    [36; 8364; 163; 165; 8381; 8378; 8377; 8361; 8362; 8372].
Definition NUMBERS_STRING : list Entry :=
  map (fun c => Str [c]) (js "0123456789").
Definition NUMBERS : list Entry :=
  map Num [1; 2; 3; 4; 5; 6; 7; 8; 9; 0].
(** The copyright sign (169), then [! ? . , : ; % # @ ^ & * | \ / < > ~],
    the backtick (96), the apostrophe, the double quote (34), the space,
    the empty string, [- _ = + ( ) [ ] { }] and the middle dot (183). *)
Definition SPECIAL_CHARACTERS : list Entry :=
  Str [169]
  :: map (fun c => Str [c]) (js "!?.,:;%#@^&*|\/<>~" ++ [96; 39; 34; 32])
  ++ Str []
  :: map (fun c => Str [c]) (js "-_=+()[]{}" ++ [183]).

Definition TRANSLATION_BLACKLIST : list Entry :=
  NUMBERS ++ NUMBERS_STRING ++ SPECIAL_CHARACTERS ++ CURRENCIES_SYMBOLS.

(** [list.includes(s)] for a string [s]. *)
Definition includes (l : list Entry) (s : JSString) : bool :=
  existsb (fun e => match e with
                    | Str s' => strEq s' s
                    | Num _ => false
                    end) l.

(** The filter of [translateJSXTextContent]. *)
Definition isTranslatable (text : JSString) : bool :=
  negb (includes TRANSLATION_BLACKLIST (trim text)).

End Legacy.

(** ** Sample sources

    Parse trees of small component files, with the fields in the order
    ast-types visits them.  A member expression carries the text it has in
    the file ([loc]), which is what recast prints for it. *)

Module Samples.

Definition file (body : list Tree) : Tree :=
  TNode "File" [("program", TNode "Program" [("body", TArr body)])]%string.
Definition stringLiteral (s : string) : Tree :=
  TNode "StringLiteral" [("value", tstr (js s))]%string.
Definition importFrom (source : string) : Tree :=
  TNode "ImportDeclaration"
    [("specifiers", TArr []); ("source", stringLiteral source)]%string.
Definition ident (n : string) : Tree := identifier (js n).
Definition jsxIdentifier (n : string) : Tree :=
  TNode "JSXIdentifier" [("name", tstr (js n))]%string.
Definition jsxElement (tag : string) (attributes children : list Tree) : Tree :=
  TNode "JSXElement"
    [("openingElement",
      TNode "JSXOpeningElement"
        [("name", jsxIdentifier tag); ("attributes", TArr attributes)]);
     ("children", TArr children)]%string.
Definition jsxText (s : string) : Tree :=
  TNode "JSXText" [("value", tstr (js s))]%string.
Definition attribute (n : string) (v : Tree) : Tree :=
  jsxAttribute (jsxIdentifier n) v.
Definition templateElement (s : string) : Tree :=
  TNode "TemplateElement"
    [("value", TNode "" [("raw", tstr (js s)); ("cooked", tstr (js s))])]%string.
Definition templateLiteral (quasis : list string) (expressions : list Tree)
    : Tree :=
  TNode "TemplateLiteral"
    [("quasis", TArr (map templateElement quasis));
     ("expressions", TArr expressions)]%string.
Definition memberExpression (object : string) (property : string) : Tree :=
  TNode "MemberExpression"
    [("object", ident object); ("property", ident property);
     ("computed", TVal (VBool false));
     ("loc", tstr (js (object ++ "." ++ property)))]%string.
Definition functionDeclaration (n : string) (body : list Tree) : Tree :=
  TNode "FunctionDeclaration"
    [("id", ident n); ("params", TArr []); ("body", blockStatement body)]%string.
Definition arrowFunction (body : Tree) : Tree :=
  TNode "ArrowFunctionExpression" [("params", TArr []); ("body", body)]%string.
Definition functionExpression (body : list Tree) : Tree :=
  TNode "FunctionExpression"
    [("id", TVal VNull); ("params", TArr []); ("body", blockStatement body)]%string.
Definition constDeclaration (n : string) (init : Tree) : Tree :=
  variableDeclaration (js "const") [variableDeclarator (ident n) init].

Definition pkg : JSString := js "react-i18next".

(** [function Welcome() { return <div>Hello World</div> }], the example in
    the header of transform.ts: a file without any import. *)
Definition welcome : Tree :=
  file [functionDeclaration "Welcome"
          [returnStatement (jsxElement "div" [] [jsxText "Hello World"])]].

(** The same component below [import React from 'react']. *)
Definition welcomeWithImport : Tree :=
  file [importFrom "react";
        functionDeclaration "Welcome"
          [returnStatement (jsxElement "div" [] [jsxText "Hello World"])]].

(** [const Banner = () => <div>Hello</div>] below an import: an arrow
    function whose body is a single expression. *)
Definition banner : Tree :=
  file [importFrom "react";
        constDeclaration "Banner"
          (arrowFunction (jsxElement "div" [] [jsxText "Hello"]))].

(** [const A = function () { return <div>Hello</div> }] *)
Definition functionExpressionComponent : Tree :=
  file [constDeclaration "A"
          (functionExpression
             [returnStatement (jsxElement "div" [] [jsxText "Hello"])])].



(** [`Hello ${user.name}, role ${user.role}`] *)
Definition helloRole : Tree :=
  templateLiteral ["Hello "; ", role "; ""]
    [memberExpression "user" "name"; memberExpression "user" "role"].

(** [function Greeting() { return <p>{`Hello ${user.name}, role
    ${user.role}`}</p> }] below an import. *)
Definition greeting : Tree :=
  file [importFrom "react";
        functionDeclaration "Greeting"
          [returnStatement
             (jsxElement "p" [] [jsxExpressionContainer helloRole])]].


(** [const A = () => <p>{`Hello ${`World`}`}</p>] below an import: a
    template literal that is itself an interpolated expression. *)
Definition nestedTemplate : Tree :=
  file [importFrom "react";
        constDeclaration "A"
          (arrowFunction
             (jsxElement "p" []
                [jsxExpressionContainer
                   (templateLiteral ["Hello "; ""]
                      [templateLiteral ["World"] []])]))].








Definition bannerContext : TransformContext := initialContext banner pkg ∅.

(** The path of the arrow function of [banner]. *)
Definition bannerFunction : ASTPath :=
  Path (VRef 11) (Field "init")
    (Some (Path (VRef 12) (Index 0)
       (Some (Path (VRef 13) (Field "declarations")
          (Some (Path (VRef 14) (Index 1)
             (Some (Path (VRef 15) (Field "body")
                (Some (Path (VRef 16) (Field "program")
                   (Some (Path (VRef 17) Root None)))))))))))).

(** What the parser returns for the text the printer writes: [j.literal]
    builds a [Literal], which is read back as a [StringLiteral]. *)
Fixpoint reparse (t : Tree) : Tree :=
  match t with
  | TVal v => TVal v
  | TArr ts => TArr (map reparse ts)
  | TNode ty fs =>
      TNode (if String.eqb ty "Literal" then "StringLiteral" else ty)
        (map (fun ft => (fst ft, reparse (snd ft))) fs)
  end.

(** The output for [nestedTemplate], with [inner] as the value bound to
    [var1]: [import { useTranslation } from 'react-i18next'; import React
    from 'react'; const A = () => { const { t } = useTranslation(); return
    <p>{t('a.hello', { var1: inner })}</p>; }]. *)
Definition nestedOutput (inner : Tree) : Tree :=
  file [importDeclaration [importSpecifier (identifier (js "useTranslation"))]
          (literal pkg);
        importFrom "react";
        constDeclaration "A"
          (arrowFunction
             (blockStatement
                [hookDeclaration;
                 returnStatement
                   (jsxElement "p" []
                      [jsxExpressionContainer
                         (translationCall (js "a") (js "hello")
                            [objectExpression
                               [objectProperty (ident "var1") inner
                                  false]])])]))].

Definition nestedCatalog : Translations :=
  {[ js "a" := <[ js "hello" := js "Hello {{var1}}" ]>
                 {[ js "world" := js "World" ]} ]}.

(** [function Card() { return <a className={`btn ${inner}`} /> }] below
    the imports [imports], with the statements [hook] in front of the
    [return]. *)
Definition classNameCard (imports hook : list Tree) (inner : Tree) : Tree :=
  file (imports
        ++ [importFrom "react";
            functionDeclaration "Card"
              (hook
               ++ [returnStatement
                     (jsxElement "a"
                        [attribute "className"
                           (jsxExpressionContainer
                              (templateLiteral ["btn "; ""] [inner]))]
                        [])])]).

(** [const A = () => `Hello ${name}`] below the imports [imports], or with
    another [body]: an arrow function whose body is the template itself. *)
Definition templateBody (imports : list Tree) (body : Tree) : Tree :=
  file (imports ++ [importFrom "react"; constDeclaration "A" (arrowFunction body)]).

Definition translationImport : Tree :=
  importDeclaration [importSpecifier (identifier (js "useTranslation"))]
    (literal pkg).


(** [`${name} ${user.name} ${admin.name} ${f()}`] *)
Definition mixedTemplate : Tree :=
  templateLiteral [""; " "; " "; " "; ""]
    [ident "name"; memberExpression "user" "name";
     memberExpression "admin" "name"; callExpression (ident "f") []].




(** The paths of the function and of the import of [welcomeWithImport]. *)
Definition welcomeProgram : ASTPath :=
  Path (VRef 15) (Field "body")
    (Some (Path (VRef 16) (Field "program")
       (Some (Path (VRef 17) Root None)))).
Definition welcomeFunction : ASTPath :=
  Path (VRef 14) (Index 1) (Some welcomeProgram).
Definition welcomeImport : ASTPath :=
  Path (VRef 2) (Index 0) (Some welcomeProgram).

(** The output for [welcomeWithImport]. *)
Definition welcomeOutput : Tree :=
  file [translationImport;
        importFrom "react";
        functionDeclaration "Welcome"
          [hookDeclaration;
           returnStatement
             (jsxElement "div" []
                [jsxExpressionContainer
                   (translationCall (js "welcome") (js "hello-world") [])])]].

(** A catalog file in the shape of the example of [readTranslations]. *)
Definition catalogText : JSString := js "{ en: { component: { hello } } }".
Definition catalogJSON : FileOperations.JSON :=
  FileOperations.JObject
    [(js "en",
      FileOperations.JObject
        [(js "component",
          FileOperations.JObject
            [(js "hello", FileOperations.JString (js "Hello"))])])].
Definition sampleFiles (path : JSString) : option JSString :=
  if strEq path (js "translations.json") then Some catalogText
  else if strEq path (js "broken.json") then Some (js "{ en: ")
  else None.
Definition sampleParse (data : JSString) : option FileOperations.JSON :=
  if strEq data catalogText then Some catalogJSON else None.

End Samples.

(** * Properties

    ** Shared lemmas *)

Lemma includes_In (l : list JSString) (s : JSString) :
  includes l s = true <-> In s l.
Proof.
  unfold includes. rewrite existsb_exists. split.
  - intros (x & Hx & Heq). unfold strEq in Heq.
    apply bool_decide_eq_true in Heq. now subst.
  - intros Hin. exists s. split; [exact Hin|].
    unfold strEq. now apply bool_decide_eq_true.
Qed.

Lemma check_exact (h : Heap) (ty : string) (v : Val) :
  String.eqb ty "CallExpression" = false ->
  check h ty v = String.eqb (typeOf h v) ty.
Proof.
  intros Hty. unfold check, subtypes. rewrite Hty. simpl.
  now rewrite orb_false_r.
Qed.

Lemma isFunctionAST_types (h : Heap) (v : Val) :
  isFunctionAST h v = true
  <-> typeOf h v = "FunctionDeclaration"%string
      \/ typeOf h v = "ArrowFunctionExpression"%string.
Proof.
  unfold isFunctionAST. rewrite !check_exact by reflexivity.
  rewrite orb_true_iff, !String.eqb_eq. reflexivity.
Qed.

Section HeapLemmas.

Lemma alloc_hookDeclaration (h : Heap) :
  alloc hookDeclaration h
  = (VRef (length h + 10), h ++ hookObjects (length h)).
Proof.
  unfold hookDeclaration, variableDeclaration, variableDeclarator,
    objectPattern, objectProperty, callExpression, identifier, tstr.
  cbn [alloc allocAll combine map fst snd]. repeat rewrite <- app_assoc.
  cbn [app]. rewrite !length_app. cbn [length Nat.add]. reflexivity.
Qed.

Lemma lookup_fresh (h objs : Heap) (k : nat) :
  (h ++ objs) !! (length h + k)%nat = objs !! k.
Proof.
  rewrite lookup_app_r by lia. f_equal. lia.
Qed.

Lemma lookup_fresh_insert (h objs : Heap) (f k : nat) (o : Obj) :
  (f < length h)%nat ->
  (<[f := o]> (h ++ objs)) !! (length h + k)%nat = objs !! k.
Proof.
  intros Hf. rewrite list_lookup_insert_ne by lia. apply lookup_fresh.
Qed.

Lemma setField_In fs f v : In (f, v) (setField fs f v).
Proof.
  induction fs as [|[g w] fs IH]; simpl; [now left|].
  destruct (String.eqb g f) eqn:E.
  - apply String.eqb_eq in E as ->. now left.
  - now right.
Qed.

Lemma getField_setField fs f v : getField (setField fs f v) f = v.
Proof.
  induction fs as [|[g w] fs IH]; simpl.
  - now rewrite String.eqb_refl.
  - destruct (String.eqb g f) eqn:E; simpl; now rewrite E.
Qed.

Lemma getField_setField_other fs f g v :
  g <> f -> getField (setField fs f v) g = getField fs g.
Proof.
  intros Hne. induction fs as [|[k w] fs IH]; simpl.
  - destruct (String.eqb f g) eqn:E; [|reflexivity].
    apply String.eqb_eq in E. congruence.
  - destruct (String.eqb k f) eqn:E; simpl.
    + apply String.eqb_eq in E as ->.
      destruct (String.eqb f g) eqn:E'; [|reflexivity].
      apply String.eqb_eq in E'. congruence.
    + now rewrite IH.
Qed.

Lemma findFrom_here n h ty p c :
  In c (children h p) -> check h ty (value c) = true ->
  In c (findFrom (S n) h ty p).
Proof.
  intros Hc Hty. simpl. apply in_flat_map. exists c. split; [exact Hc|].
  rewrite Hty. now left.
Qed.

Lemma findFrom_below n h ty p c q :
  In c (children h p) -> In q (findFrom n h ty c) ->
  In q (findFrom (S n) h ty p).
Proof.
  intros Hc Hq. simpl. apply in_flat_map. exists c. split; [exact Hc|].
  apply in_or_app. now right.
Qed.

Lemma children_field h p ty fs f v :
  lookupObj h (value p) = Some (ONode ty fs) -> In (f, v) fs ->
  In (Path v (Field f) (Some p)) (children h p).
Proof.
  intros Hp Hin. unfold children. rewrite Hp.
  apply in_map_iff. now exists (f, v).
Qed.

Lemma children_index h p vs i v :
  lookupObj h (value p) = Some (OArray vs) -> vs !! i = Some v ->
  In (Path v (Index i) (Some p)) (children h p).
Proof.
  intros Hp Hi. unfold children. rewrite Hp.
  apply list_elem_of_In, elem_of_lookup_imap. now exists i, v.
Qed.

End HeapLemmas.

(** ** Frame lemmas *)

Section TreeInduction.
Variable P : Tree -> Prop.
Hypothesis HVal : forall v, P (TVal v).
Hypothesis HArr : forall ts, Forall P ts -> P (TArr ts).
Hypothesis HNode :
  forall ty fs, Forall (fun ft => P (snd ft)) fs -> P (TNode ty fs).

Lemma Tree_forall_ind : forall t, P t.
Proof.
  fix IH 1. intros [v|ts|ty fs].
  - apply HVal.
  - apply HArr. induction ts as [|t ts IHts]; constructor;
      [apply IH | exact IHts].
  - apply HNode. induction fs as [|ft fs IHfs]; constructor;
      [apply IH | exact IHfs].
Qed.
End TreeInduction.

Lemma allocAll_extends {A} (allocOne : A -> Heap -> Val * Heap) (xs : list A) :
  Forall (fun x => forall h, exists objs, snd (allocOne x h) = h ++ objs) xs ->
  forall h, exists objs, snd (allocAll allocOne xs h) = h ++ objs.
Proof.
  induction 1 as [|x xs Hx _ IH]; intros h; simpl.
  - exists []. now rewrite app_nil_r.
  - destruct (Hx h) as [o1 H1]. destruct (allocOne x h) as [v h1].
    simpl in H1. subst h1.
    destruct (IH (h ++ o1)) as [o2 H2].
    destruct (allocAll allocOne xs (h ++ o1)) as [vs h2].
    simpl in *. subst h2. exists (o1 ++ o2). now rewrite app_assoc.
Qed.

Lemma alloc_extends (t : Tree) :
  forall h, exists objs, snd (alloc t h) = h ++ objs.
Proof.
  induction t as [v|ts IH|ty fs IH] using Tree_forall_ind; intros h.
  - exists []. simpl. now rewrite app_nil_r.
  - cbn [alloc]. destruct (allocAll_extends alloc ts IH h) as [objs Hobjs].
    destruct (allocAll alloc ts h) as [vs h1]. simpl in *. subst h1.
    exists (objs ++ [OArray vs]). now rewrite app_assoc.
  - cbn [alloc].
    destruct (allocAll_extends (fun ft => alloc (snd ft)) fs IH h)
      as [objs Hobjs].
    destruct (allocAll _ fs h) as [vs h1]. simpl in *. subst h1.
    exists (objs ++ [ONode ty (combine (map fst fs) vs)]).
    now rewrite app_assoc.
Qed.

Section FrameLemmas.
Variable selected : list ASTPath.

Lemma Frame_refl h : Frame selected h h.
Proof.
  split.
  - intros l vs Hl. exists vs. split; [exact Hl | now intros].
  - intros l ty fs Hl. exists fs. split; [exact Hl | now intros].
Qed.

Lemma Frame_trans h1 h2 h3 :
  Frame selected h1 h2 -> Frame selected h2 h3 -> Frame selected h1 h3.
Proof.
  intros [A12 N12] [A23 N23]. split.
  - intros l vs Hl. destruct (A12 l vs Hl) as (vs2 & H2 & K2).
    destruct (A23 l vs2 H2) as (vs3 & H3 & K3).
    exists vs3. split; [exact H3|]. intros v Hv Hsel.
    apply K3; [|exact Hsel]. now apply K2.
  - intros l ty fs Hl. destruct (N12 l ty fs Hl) as (fs2 & H2 & K2).
    destruct (N23 l ty fs2 H2) as (fs3 & H3 & K3).
    exists fs3. split; [exact H3|]. intros f Hbody Hsel.
    rewrite K3 by assumption. now apply K2.
Qed.

Lemma Frame_extend h objs : Frame selected h (h ++ objs).
Proof.
  split.
  - intros l vs Hl. exists vs. split; [|now intros].
    rewrite lookup_app_l; [exact Hl | now apply lookup_lt_Some in Hl].
  - intros l ty fs Hl. exists fs. split; [|now intros].
    rewrite lookup_app_l; [exact Hl | now apply lookup_lt_Some in Hl].
Qed.

Lemma Frame_alloc t h : Frame selected h (snd (alloc t h)).
Proof.
  destruct (alloc_extends t h) as [objs ->]. apply Frame_extend.
Qed.

Lemma Frame_write_array h l vs vs' :
  h !! l = Some (OArray vs) ->
  (forall v, In v vs -> (forall p, In p selected -> value p <> v) -> In v vs') ->
  Frame selected h (<[l := OArray vs']> h).
Proof.
  intros Hl Hkeep.
  assert (Hlt : (l < length h)%nat) by now apply lookup_lt_Some in Hl.
  split.
  - intros k ws Hk. destruct (decide (k = l)) as [->|Hne].
    + rewrite Hl in Hk. injection Hk as <-.
      exists vs'. split; [now apply list_lookup_insert_eq | exact Hkeep].
    + exists ws. split; [|now intros].
      now rewrite list_lookup_insert_ne by congruence.
  - intros k ty fs Hk. destruct (decide (k = l)) as [->|Hne].
    + rewrite Hl in Hk. discriminate.
    + exists fs. split; [|now intros].
      now rewrite list_lookup_insert_ne by congruence.
Qed.

Lemma Frame_write_node h l ty fs fs' :
  h !! l = Some (ONode ty fs) ->
  (forall f, isFunctionType ty = false \/ f <> "body"%string ->
             (forall p, In p selected -> ~ isFieldOf l f p) ->
             getField fs' f = getField fs f) ->
  Frame selected h (<[l := ONode ty fs']> h).
Proof.
  intros Hl Hkeep.
  assert (Hlt : (l < length h)%nat) by now apply lookup_lt_Some in Hl.
  split.
  - intros k ws Hk. destruct (decide (k = l)) as [->|Hne].
    + rewrite Hl in Hk. discriminate.
    + exists ws. split; [|now intros].
      now rewrite list_lookup_insert_ne by congruence.
  - intros k ty' gs Hk. destruct (decide (k = l)) as [->|Hne].
    + rewrite Hl in Hk. injection Hk as <- <-.
      exists fs'. split; [now apply list_lookup_insert_eq | exact Hkeep].
    + exists gs. split; [|now intros].
      now rewrite list_lookup_insert_ne by congruence.
Qed.

Lemma In_insertAt {A} (i : nat) (x v : A) (l : list A) :
  In v l -> In v (insertAt i x l).
Proof.
  intros Hv. unfold insertAt. rewrite <- (take_drop i l) in Hv.
  apply in_app_or in Hv as [Hv|Hv]; apply in_or_app; [now left|].
  right. now right.
Qed.

Lemma Frame_insertBefore h p r : Frame selected h (insertBefore h p r).
Proof.
  unfold insertBefore. destruct (parentPath p) as [pp|]; [|apply Frame_refl].
  destruct (value pp) as [| | | |l]; try apply Frame_refl.
  simpl. destruct (h !! l) as [[ty fs|vs]|] eqn:Hl; try apply Frame_refl.
  destruct (name p) as [|f|i]; try apply Frame_refl.
  apply (Frame_write_array h l vs); [exact Hl|].
  intros v Hv _. now apply In_insertAt.
Qed.

Lemma Frame_unshift h arr x : Frame selected h (unshift h arr x).
Proof.
  unfold unshift. destruct arr as [| | | |l]; try apply Frame_refl.
  simpl. destruct (h !! l) as [[ty fs|vs]|] eqn:Hl; try apply Frame_refl.
  apply (Frame_write_array h l vs); [exact Hl|].
  intros v Hv _. now right.
Qed.

Lemma Frame_assign_body h node x :
  isFunctionType (typeOf h node) = true ->
  Frame selected h (assign h node "body" x).
Proof.
  intros Hfn. unfold assign. destruct node as [| | | |l]; try apply Frame_refl.
  unfold typeOf in Hfn. simpl in *.
  destruct (h !! l) as [[ty fs|vs]|] eqn:Hl; try apply Frame_refl.
  apply (Frame_write_node h l ty fs); [exact Hl|].
  intros f [Hty | Hf] _; [congruence|].
  now apply getField_setField_other.
Qed.

Lemma indexOf_lookup vs v k : indexOf vs v = Some k -> vs !! k = Some v.
Proof.
  revert k. induction vs as [|w vs IH]; intros k; simpl; [discriminate|].
  destruct (bool_decide (w = v)) eqn:E.
  - intros [= <-]. apply bool_decide_eq_true in E. now subst.
  - destruct (indexOf vs v) as [j|]; simpl; [|discriminate].
    intros [= <-]. now apply IH.
Qed.

Lemma In_insert_other {A} (l : list A) (k : nat) (x v w : A) :
  l !! k = Some w -> v <> w -> In v l -> In v (<[k := x]> l).
Proof.
  intros Hk Hne Hv. apply list_elem_of_In, list_elem_of_lookup in Hv as [j Hj].
  apply list_elem_of_In, list_elem_of_lookup. exists j.
  rewrite list_lookup_insert_ne; [exact Hj|].
  intros ->. congruence.
Qed.

Lemma Frame_replace h p r :
  In p selected -> Frame selected h (replace h p r).
Proof.
  intros Hp. unfold replace.
  destruct (parentPath p) as [pp|] eqn:Hpp; [|apply Frame_refl].
  destruct (value pp) as [| | | |l] eqn:Hv; try apply Frame_refl.
  simpl. destruct (h !! l) as [[ty fs|vs]|] eqn:Hl; try apply Frame_refl.
  - destruct (name p) as [|f|i] eqn:Hn; try apply Frame_refl.
    apply (Frame_write_node h l ty fs); [exact Hl|].
    intros g _ Hsel. apply getField_setField_other. intros ->.
    apply (Hsel p Hp). split; [|exact Hn]. now rewrite Hpp.
  - destruct (name p) as [|f|i] eqn:Hn; try apply Frame_refl.
    assert (Hat : forall k, vs !! k = Some (value p) ->
                            Frame selected h (<[l := OArray (<[k := r]> vs)]> h)).
    { intros k Hk. apply (Frame_write_array h l vs); [exact Hl|].
      intros v Hin Hsel. apply (In_insert_other vs k r v (value p));
        [exact Hk | | exact Hin].
      intros ->. now apply (Hsel p Hp). }
    destruct (bool_decide (vs !! i = Some (value p))) eqn:E.
    + apply Hat. now apply bool_decide_eq_true in E.
    + destruct (indexOf vs (value p)) as [k|] eqn:Ek; [|apply Frame_refl].
      apply Hat. now apply indexOf_lookup.
Qed.

End FrameLemmas.

Lemma isFunctionAST_type (h : Heap) (v : Val) :
  isFunctionAST h v = isFunctionType (typeOf h v).
Proof.
  unfold isFunctionAST, isFunctionType. now rewrite !check_exact by reflexivity.
Qed.

Lemma typeOf_extend (h objs : Heap) (v : Val) :
  typeOf h v <> EmptyString -> typeOf (h ++ objs) v = typeOf h v.
Proof.
  unfold typeOf, lookupObj. destruct v as [| | | |l]; try congruence.
  destruct (h !! l) as [o|] eqn:Hl; [|congruence].
  intros _. rewrite lookup_app_l; [now rewrite Hl|].
  now apply lookup_lt_Some in Hl.
Qed.

Section StepFrames.
Context `{Host}.
Variable selected : list ASTPath.

Lemma ensureTranslationImport_Frame ctx :
  Frame selected (heap ctx) (heap (ensureTranslationImport ctx)).
Proof.
  unfold ensureTranslationImport.
  destruct (existsb _ _); [apply Frame_refl|].
  destruct (head _) as [first|]; [|apply Frame_refl].
  pose proof (Frame_alloc selected
                (importDeclaration
                   [importSpecifier (identifier (js "useTranslation"))]
                   (literal (importPackage ctx))) (heap ctx)) as Ha.
  destruct (alloc _ (heap ctx)) as [importDecl h1]. simpl in *.
  eapply Frame_trans; [exact Ha | apply Frame_insertBefore].
Qed.

Lemma ensureTranslationHook_Frame ctx functionAST :
  Frame selected (heap ctx) (heap (ensureTranslationHook ctx functionAST)).
Proof.
  unfold ensureTranslationHook.
  destruct (hasHook _ _); [apply Frame_refl|].
  destruct (isFunctionAST (heap ctx) (value functionAST)) eqn:Hfn;
    [|apply Frame_refl].
  rewrite alloc_hookDeclaration.
  set (h1 := heap ctx ++ hookObjects (length (heap ctx))).
  assert (F1 : Frame selected (heap ctx) h1) by apply Frame_extend.
  destruct (check h1 "BlockStatement" _).
  - simpl. eapply Frame_trans; [exact F1 | apply Frame_unshift].
  - set (body := prop h1 (value functionAST) "body").
    pose proof (Frame_alloc selected
                  (blockStatement
                     [TVal (VRef (length (heap ctx) + 10));
                      returnStatement (TVal body)]) h1) as F2.
    destruct (alloc_extends
                (blockStatement
                   [TVal (VRef (length (heap ctx) + 10));
                    returnStatement (TVal body)]) h1) as [objs Hobjs].
    destruct (alloc _ h1) as [block h2]. simpl in *. subst h2.
    eapply Frame_trans; [exact F1|].
    eapply Frame_trans; [exact F2|].
    apply Frame_assign_body.
    rewrite isFunctionAST_type in Hfn.
    assert (Hne : typeOf (heap ctx) (value functionAST) <> EmptyString).
    { intros Hty. rewrite Hty in Hfn. discriminate. }
    subst h1. rewrite <- app_assoc, typeOf_extend by exact Hne. exact Hfn.
Qed.

Lemma replaceWith_Frame ctx path node :
  In path selected ->
  Frame selected (heap ctx) (heap (replaceWith ctx path node)).
Proof.
  intros Hp. unfold replaceWith.
  pose proof (Frame_alloc selected node (heap ctx)) as Ha.
  destruct (alloc node (heap ctx)) as [v h1]. simpl in *.
  eapply Frame_trans; [exact Ha | now apply Frame_replace].
Qed.

(** The common tail of the three visitors. *)
Lemma rewrite_Frame ctx catalog functionAST path node :
  In path selected ->
  Frame selected (heap ctx)
    (heap (replaceWith
             (ensureTranslationHook
                (ensureTranslationImport (withTranslations ctx catalog))
                functionAST)
             path node)).
Proof.
  intros Hp.
  eapply Frame_trans; [|now apply replaceWith_Frame].
  eapply Frame_trans; [|apply ensureTranslationHook_Frame].
  apply (ensureTranslationImport_Frame (withTranslations ctx catalog)).
Qed.

Lemma jsxTextVisit_Frame ctx path :
  In path selected -> Frame selected (heap ctx) (heap (jsxTextVisit ctx path)).
Proof.
  intros Hp. unfold jsxTextVisit.
  destruct (getClosestFunctionAST _ _); [|apply Frame_refl].
  now apply rewrite_Frame.
Qed.

Lemma jsxAttributeVisit_Frame ctx path :
  In path selected ->
  Frame selected (heap ctx) (heap (jsxAttributeVisit ctx path)).
Proof.
  intros Hp. unfold jsxAttributeVisit.
  destruct (negb _); [apply Frame_refl|].
  destruct (getClosestFunctionAST _ _); [|apply Frame_refl].
  now apply rewrite_Frame.
Qed.

Lemma templateLiteralVisit_Frame ctx path :
  In path selected ->
  Frame selected (heap ctx) (heap (templateLiteralVisit ctx path)).
Proof.
  intros Hp. unfold templateLiteralVisit.
  destruct (getClosestFunctionAST _ _); [|apply Frame_refl].
  destruct (templateParts _ _) as [text properties].
  now apply rewrite_Frame.
Qed.

Lemma fold_left_Frame (visit : TransformContext -> ASTPath -> TransformContext)
    (paths : list ASTPath) :
  (forall ctx p, In p selected -> Frame selected (heap ctx) (heap (visit ctx p))) ->
  (forall p, In p paths -> In p selected) ->
  forall ctx, Frame selected (heap ctx) (heap (fold_left visit paths ctx)).
Proof.
  intros Hvisit. induction paths as [|p paths IH]; intros Hsub ctx.
  - apply Frame_refl.
  - simpl. eapply Frame_trans.
    + apply (Hvisit ctx p). apply Hsub. now left.
    + apply IH. intros q Hq. apply Hsub. now right.
Qed.

End StepFrames.




(** *** What [find] returns *)

Lemma children_shape (h : Heap) (q p : ASTPath) :
  In p (children h q) ->
  parentPath p = Some q
  /\ ((exists ty fs f,
          lookupObj h (value q) = Some (ONode ty fs)
          /\ In (f, value p) fs /\ name p = Field f)
      \/ (exists vs i,
             lookupObj h (value q) = Some (OArray vs)
             /\ vs !! i = Some (value p) /\ name p = Index i)).
Proof.
  unfold children. destruct (lookupObj h (value q)) as [[ty fs|vs]|]; [| |easy].
  - intros Hin. apply in_map_iff in Hin as ([f v] & <- & Hfv).
    split; [reflexivity|]. left. now exists ty, fs, f.
  - intros Hin. apply list_elem_of_In, elem_of_lookup_imap in Hin
      as (i & v & -> & Hi).
    split; [reflexivity|]. right. now exists vs, i.
Qed.

Lemma findFrom_sound (n : nat) (h : Heap) (ty : string) (q0 p : ASTPath) :
  In p (findFrom n h ty q0) ->
  check h ty (value p) = true
  /\ exists q, parentPath p = Some q /\ In p (children h q).
Proof.
  revert q0. induction n as [|n IH]; intros q0; simpl; [easy|].
  intros Hin. apply in_flat_map in Hin as (c & Hc & Hp).
  apply in_app_or in Hp as [Hp|Hp].
  - destruct (check h ty (value c)) eqn:E; [|easy].
    destruct Hp as [<-|[]]. split; [exact E|].
    exists q0. split; [|exact Hc]. now apply children_shape in Hc.
  - now apply IH in Hp.
Qed.


(** ** Text classifier *)

Lemma blacklist_entries_short :
  forall s, In s CONSTANTS.TRANSLATION_BLACKLIST -> (length s <= 1)%nat.
Proof.
  assert (Hall : forallb (fun s : JSString => Nat.leb (length s) 1)
                   CONSTANTS.TRANSLATION_BLACKLIST = true) by (vm_compute; reflexivity).
  intros s Hin. rewrite forallb_forall in Hall.
  apply Nat.leb_le. now apply Hall.
Qed.

(** C1, the counterexample: the six verdicts of the claim do not hold
    together, because the text [42] is accepted.  The deny-list holds the
    ten digits one by one, and a text is compared with its entries as a
    whole, so a number of two or more digits is on no entry. *)
Lemma C1_counterexample :
  ~ (isTranslatable (js "") = false /\ isTranslatable (js "42") = false
     /\ isTranslatable (js "$") = false /\ isTranslatable (js "   ") = false
     /\ isTranslatable (js "Hello World") = true
     /\ isTranslatable (js "Price: $5") = true).
Proof. vm_compute. intros (_ & H42 & _). discriminate H42. Qed.

(** C1 (as amended): [isTranslatable] rejects a text exactly when the text,
    with the white space at its two ends removed, is one of the entries of
    [TRANSLATION_BLACKLIST]: the empty string, a single digit or one of the
    listed symbols.  Every text whose trimmed form has two or more code
    units is accepted.  So the empty string, [$], a text of blanks and [7]
    are rejected, while [42], [Hello World] and [Price: $5] are accepted. *)
Theorem isTranslatable_exact_denylist :
  (forall text,
      isTranslatable text = false
      <-> In (trim text) CONSTANTS.TRANSLATION_BLACKLIST)
  /\ (forall text, (2 <= length (trim text))%nat -> isTranslatable text = true)
  /\ isTranslatable (js "") = false
  /\ isTranslatable (js "$") = false
  /\ isTranslatable (js "   ") = false
  /\ isTranslatable (js "7") = false
  /\ isTranslatable (js "42") = true
  /\ isTranslatable (js "Hello World") = true
  /\ isTranslatable (js "Price: $5") = true.
Proof.
  assert (Hiff : forall text,
             isTranslatable text = false
             <-> In (trim text) CONSTANTS.TRANSLATION_BLACKLIST).
  { intros text. unfold isTranslatable.
    rewrite negb_false_iff. apply includes_In. }
  split; [exact Hiff|]. split.
  - intros text Hlen.
    destruct (isTranslatable text) eqn:E; [reflexivity|].
    apply Hiff, blacklist_entries_short in E. lia.
  - repeat split; vm_compute; reflexivity.
Qed.

(** The second part at the text [ ab ], whose trimmed form is [ab]. *)
Lemma isTranslatable_exact_denylist_witness :
  (2 <= length (trim (js " ab ")))%nat /\ isTranslatable (js " ab ") = true.
Proof.
  split.
  - vm_compute. lia.
  - apply (proj1 (proj2 isTranslatable_exact_denylist)). vm_compute. lia.
Defined.

(** ** Scope resolver *)

Lemma closestFunctionFrom_nearest (h : Heap) (path : ASTPath) :
  match closestFunctionFrom h path with
  | Some fn =>
      exists nearer,
        ancestors path = nearer ++ ancestors fn
        /\ Forall (fun q => isFunctionAST h (value q) = false) nearer
        /\ isFunctionAST h (value fn) = true
  | None => Forall (fun q => isFunctionAST h (value q) = false) (ancestors path)
  end.
Proof.
  revert path.
  fix IH 1. intros [v n pp]. simpl.
  destruct (isFunctionAST h v) eqn:Ev.
  - exists []. simpl. repeat split; [constructor | exact Ev].
  - destruct pp as [q|].
    + specialize (IH q).
      destruct (closestFunctionFrom h q) as [fn|].
      * destruct IH as (nearer & Heq & Hall & Hfn).
        exists (Path v n (Some q) :: nearer). simpl. rewrite Heq.
        repeat split; [|exact Hfn]. constructor; [exact Ev | exact Hall].
      * constructor; [exact Ev | exact IH].
    + repeat constructor. exact Ev.
Qed.

(** C2 (as amended): the resolver returns the nearest path, from the node
    outward, whose node is a function declaration or an arrow function
    expression, and it returns nothing exactly when no node on the way to the
    root is one of the two (any other function-like construct, such as a
    [function] expression or a method, is walked through).  For an arrow
    function the unit name is the [id.name] of the parent of the function,
    i.e. the identifier of its declarator; for a declaration it is the
    declared name; it is the sentinel when that name is missing. *)
Theorem getClosestFunctionAST_nearest (h : Heap) (path : ASTPath) :
  match getClosestFunctionAST h (Some path) with
  | Some fn =>
      (exists nearer,
          ancestors path = nearer ++ ancestors fn
          /\ Forall (fun q =>
                       typeOf h (value q) <> "FunctionDeclaration"%string
                       /\ typeOf h (value q) <> "ArrowFunctionExpression"%string)
               nearer)
      /\ (typeOf h (value fn) = "ArrowFunctionExpression"%string
          /\ getFunctionName h fn
             = orUnknownFunction
                 (prop h (prop h (valueOpt (parentPath fn)) "id") "name")
          \/ typeOf h (value fn) = "FunctionDeclaration"%string
             /\ getFunctionName h fn
                = orUnknownFunction (prop h (prop h (value fn) "id") "name"))
  | None =>
      Forall (fun q =>
                typeOf h (value q) <> "FunctionDeclaration"%string
                /\ typeOf h (value q) <> "ArrowFunctionExpression"%string)
        (ancestors path)
  end
  /\ (forall n, orUnknownFunction (VStr n) = n)
  /\ orUnknownFunction VUndefined = js "UnknownFunction"
  /\ orUnknownFunction VNull = js "UnknownFunction".
Proof.
  assert (Hnot : forall q,
             isFunctionAST h (value q) = false ->
             typeOf h (value q) <> "FunctionDeclaration"%string
             /\ typeOf h (value q) <> "ArrowFunctionExpression"%string).
  { intros q Hq. split; intros Hty;
      assert (isFunctionAST h (value q) = true) as Ht
        by (apply isFunctionAST_types; tauto); congruence. }
  split; [|repeat split].
  simpl. pose proof (closestFunctionFrom_nearest h path) as Hn.
  destruct (closestFunctionFrom h path) as [fn|].
  - destruct Hn as (nearer & Heq & Hall & Hfn). split.
    + exists nearer. split; [exact Heq|].
      eapply Forall_impl; [exact Hall|]. exact Hnot.
    + unfold getFunctionName. rewrite !check_exact by reflexivity.
      apply isFunctionAST_types in Hfn as [Hfd | Harrow].
      * right. rewrite Hfd. simpl. tauto.
      * left. rewrite Harrow. simpl. tauto.
  - eapply Forall_impl; [exact Hn|]. exact Hnot.
Qed.

(** C2, the counterexample: in [const A = function () { return
    <div>Hello</div> }] the text lies inside a function-valued expression,
    and the resolver returns nothing for it. *)
Lemma C2_counterexample :
  let ctx := initialContext Samples.functionExpressionComponent Samples.pkg ∅ in
  exists path fn,
    head (find (heap ctx) "JSXText" (root ctx)) = Some path
    /\ In fn (ancestors path)
    /\ typeOf (heap ctx) (value fn) = "FunctionExpression"%string
    /\ typeOf (heap ctx) (valueOpt (parentPath fn)) = "VariableDeclarator"%string
    /\ getClosestFunctionAST (heap ctx) (Some path) = None.
Proof.
  cbv zeta. eexists. eexists.
  split; [vm_compute; reflexivity|].
  split; [simpl; do 6 right; left; reflexivity|].
  repeat split; vm_compute; reflexivity.
Qed.
Section KeyDeriver.
Context `{Host}.

Ltac bools :=
  repeat match goal with
  | H : _ && _ = true |- _ => apply andb_true_iff in H; destruct H
  | H : _ || _ = true |- _ => apply orb_true_iff in H
  | H : _ || _ = false |- _ => apply orb_false_iff in H; destruct H
  | H : _ && _ = false |- _ => apply andb_false_iff in H
  | H : (_ <=? _) = true |- _ => apply N.leb_le in H
  | H : (_ <=? _) = false |- _ => apply N.leb_gt in H
  | H : (_ <? _) = true |- _ => apply N.ltb_lt in H
  | H : (_ <? _) = false |- _ => apply N.ltb_ge in H
  | H : (_ =? _) = true |- _ => apply N.eqb_eq in H
  | H : (_ =? _) = false |- _ => apply N.eqb_neq in H
  | H : _ \/ _ |- _ => destruct H
  end.

Lemma trimStart_Forall (P : N -> Prop) s :
  Forall P s -> Forall P (trimStart s).
Proof.
  induction 1 as [|c r Hc Hr IH]; simpl; [constructor|].
  destruct (isWhiteSpace c); [exact IH | now constructor].
Qed.

Lemma trim_Forall (P : N -> Prop) s : Forall P s -> Forall P (trim s).
Proof.
  intros Hs. unfold trim, trimEnd.
  apply Forall_reverse, trimStart_Forall, Forall_reverse.
  now apply trimStart_Forall.
Qed.

Lemma trimStart_head s c :
  head (trimStart s) = Some c -> isWhiteSpace c = false.
Proof.
  induction s as [|x r IH]; simpl; [discriminate|].
  destruct (isWhiteSpace x) eqn:E; [exact IH|].
  simpl. intros [= <-]. exact E.
Qed.


Lemma trim_last s c : last (trim s) = Some c -> isWhiteSpace c = false.
Proof.
  unfold trim, trimEnd. rewrite last_reverse. apply trimStart_head.
Qed.

Lemma trimStart_suffix s : exists pre, s = pre ++ trimStart s.
Proof.
  induction s as [|x r [pre IH]]; simpl.
  - now exists [].
  - destruct (isWhiteSpace x).
    + exists (x :: pre). simpl. now f_equal.
    + now exists [].
Qed.

Lemma trim_head s c : head (trim s) = Some c -> isWhiteSpace c = false.
Proof.
  unfold trim, trimEnd.
  destruct (trimStart_suffix (reverse (trimStart s))) as [pre Hpre].
  set (t := trimStart (reverse (trimStart s))) in *.
  assert (Hs : trimStart s = reverse t ++ reverse pre).
  { rewrite <- reverse_app, <- Hpre. now rewrite reverse_involutive. }
  destruct (reverse t) as [|y r] eqn:Et; simpl; [discriminate|].
  intros [= ->]. apply (trimStart_head s). rewrite Hs. reflexivity.
Qed.


Lemma strict_cases c :
  isStrictChar c = true -> isWhiteSpace c = false -> isAlnum c = true.
Proof.
  unfold isStrictChar, isAlnum. intros Hs Hw. rewrite Hw in Hs.
  now rewrite orb_false_r in Hs.
Qed.

Lemma replaceSpaceRunsFrom_alphabet b s :
  Forall (fun c => isStrictChar c = true) s ->
  Forall (fun c => isAlnum c = true \/ c = 45)
    (replaceSpaceRunsFrom b (js "-") s).
Proof.
  intros Hs. revert b. induction Hs as [|c r Hc Hr IH]; intros b; simpl.
  - constructor.
  - destruct (isWhiteSpace c) eqn:E.
    + apply Forall_app. split; [|apply IH].
      destruct b; [constructor|].
      constructor; [right; reflexivity | constructor].
    + constructor; [|apply IH]. left. now apply strict_cases.
Qed.

Lemma replaceSpaceRunsFrom_head b r s c :
  head s = Some c -> isWhiteSpace c = false ->
  head (replaceSpaceRunsFrom b r s) = Some c.
Proof.
  destruct s as [|x t]; simpl; [discriminate|].
  intros [= ->] ->. reflexivity.
Qed.

Lemma replaceSpaceRunsFrom_last b r s c :
  last s = Some c -> isWhiteSpace c = false ->
  last (replaceSpaceRunsFrom b r s) = Some c.
Proof.
  revert b. induction s as [|x t IH]; intros b; simpl; [discriminate|].
  destruct t as [|y t'].
  - simpl. intros [= ->] ->. reflexivity.
  - intros Hl Hc. specialize (IH (isWhiteSpace x) Hl Hc).
    destruct (isWhiteSpace x).
    + rewrite last_app. rewrite IH. reflexivity.
    + rewrite last_cons. rewrite IH. reflexivity.
Qed.

Lemma replaceSpaceRunsFrom_nil b r s :
  s = [] -> replaceSpaceRunsFrom b r s = [].
Proof. now intros ->. Qed.

Lemma alnum_or_dash_ascii c :
  isAlnum c = true \/ c = 45 -> isAscii c = true.
Proof.
  unfold isAlnum, isUpperAscii, isLowerAscii, isDigitAscii, isAscii.
  intros [Hc | ->]; [|reflexivity]. bools; apply N.ltb_lt; lia.
Qed.

Lemma lowerAscii_slug c :
  isAlnum c = true \/ c = 45 -> isSlugChar (lowerAscii c) = true.
Proof.
  unfold lowerAscii, isSlugChar, isAlnum, isLowerAscii, isDigitAscii.
  intros Hc. destruct (isUpperAscii c) eqn:Eu.
  - clear Hc. unfold isUpperAscii in Eu. bools.
    apply orb_true_iff; left; apply orb_true_iff; left.
    apply andb_true_iff; split; apply N.leb_le; lia.
  - destruct Hc as [Hc | ->]; [|reflexivity].
    simpl in Hc. rewrite Hc. reflexivity.
Qed.

Lemma lowerAscii_not_dash c : isAlnum c = true -> lowerAscii c <> 45.
Proof.
  unfold lowerAscii, isAlnum. intros Hc.
  destruct (isUpperAscii c) eqn:Eu.
  - clear Hc. unfold isUpperAscii in Eu. bools. lia.
  - simpl in Hc. unfold isLowerAscii, isDigitAscii in Hc. bools; lia.
Qed.

Lemma whitespace_not_alnum c : isAlnum c = true -> isWhiteSpace c = false.
Proof.
  unfold isAlnum, isUpperAscii, isLowerAscii, isDigitAscii, isWhiteSpace,
    isLineTerminator.
  intros Hc.
  repeat (apply orb_false_iff; split);
    try (apply N.eqb_neq; bools; lia).
  apply andb_false_iff. left. apply N.leb_gt. bools; lia.
Qed.


Lemma slugify_keyOptions text :
  slugify text keyOptions = map lowerAscii (rawSlug text).
Proof.
  unfold slugify, rawSlug. simpl.
  set (s := List.filter isStrictChar _).
  assert (Hs : Forall (fun c => isStrictChar c = true) (trim s)).
  { apply trim_Forall. subst s. apply Forall_forall. intros c Hc.
    apply list_elem_of_In, filter_In in Hc. tauto. }
  pose proof (replaceSpaceRunsFrom_alphabet false _ Hs) as Ha.
  unfold toLowerCase.
  assert (Hascii : forallb isAscii (replaceSpaceRuns (js "-") (trim s)) = true).
  { apply forallb_forall. intros c Hc. apply alnum_or_dash_ascii.
    rewrite Forall_forall in Ha. apply Ha. now apply list_elem_of_In. }
  now rewrite Hascii.
Qed.

Lemma rawSlug_alphabet text :
  Forall (fun c => isAlnum c = true \/ c = 45) (rawSlug text).
Proof.
  unfold rawSlug, replaceSpaceRuns. apply replaceSpaceRunsFrom_alphabet.
  apply trim_Forall, Forall_forall. intros c Hc.
  apply list_elem_of_In, filter_In in Hc. tauto.
Qed.

Lemma rawSlug_head text c :
  head (rawSlug text) = Some c -> isAlnum c = true.
Proof.
  unfold rawSlug, replaceSpaceRuns.
  set (s := trim _).
  assert (Hs : Forall (fun c => isStrictChar c = true) s).
  { apply trim_Forall, Forall_forall. intros x Hx.
    apply list_elem_of_In, filter_In in Hx. tauto. }
  destruct s as [|x r] eqn:Es; [discriminate|].
  assert (Hx : isWhiteSpace x = false).
  { apply (trim_head (List.filter isStrictChar
       (fold_left (slugifyStep keyOptions (js "-")) (normalize text) []))).
    fold s. rewrite Es. reflexivity. }
  rewrite (replaceSpaceRunsFrom_head false _ (x :: r) x eq_refl Hx).
  intros [= <-]. apply strict_cases; [|exact Hx].
  now inversion Hs.
Qed.

Lemma rawSlug_last text c :
  last (rawSlug text) = Some c -> isAlnum c = true.
Proof.
  unfold rawSlug, replaceSpaceRuns.
  set (s := trim _).
  assert (Hs : Forall (fun c => isStrictChar c = true) s).
  { apply trim_Forall, Forall_forall. intros x Hx.
    apply list_elem_of_In, filter_In in Hx. tauto. }
  destruct (last s) as [x|] eqn:El.
  - assert (Hx : isWhiteSpace x = false).
    { apply (trim_last (List.filter isStrictChar
         (fold_left (slugifyStep keyOptions (js "-")) (normalize text) []))).
      exact El. }
    rewrite (replaceSpaceRunsFrom_last false _ s x El Hx).
    intros [= <-]. apply strict_cases; [|exact Hx].
    rewrite Forall_forall in Hs. apply Hs.
    apply list_elem_of_lookup. exists (pred (length s)).
    now rewrite <- last_lookup.
  - apply last_None in El. rewrite El. discriminate.
Qed.


Lemma last_map {A B} (f : A -> B) (l : list A) :
  last (map f l) = option_map f (last l).
Proof.
  induction l as [|x r IH]; [reflexivity|].
  simpl map. rewrite !last_cons, IH. now destruct (last r).
Qed.

(** C3 (as amended): the key is a function of the text, has at most 40 code
    units, all of them lower-case letters, digits or the separator, and never
    starts with a separator; it does not end with one either unless the slug
    was longer than 40 and has been cut. *)
Theorem createTranslationKey_slug (text : JSString) :
  (forall text', text = text' ->
                 createTranslationKey text = createTranslationKey text')
  /\ (length (createTranslationKey text) <= 40)%nat
  /\ forallb isSlugChar (createTranslationKey text) = true
  /\ head (createTranslationKey text) <> Some 45
  /\ ((length (slugify text keyOptions) <= 40)%nat ->
      last (createTranslationKey text) <> Some 45).
Proof.
  split; [now intros text' <-|].
  unfold createTranslationKey, slice0, CONSTANTS.TRANSLATION_KEY_MAX_LENGTH.
  rewrite slugify_keyOptions.
  split; [rewrite length_take; lia|].
  split; [|split].
  - apply forallb_forall. intros c Hc.
    apply list_elem_of_In in Hc. apply elem_of_take in Hc as (i & Hi & _).
    apply list_elem_of_lookup_2, list_elem_of_In, in_map_iff in Hi
      as (x & <- & Hx).
    apply lowerAscii_slug.
    pose proof (rawSlug_alphabet text) as Ha. rewrite Forall_forall in Ha.
    apply Ha. now apply list_elem_of_In.
  - destruct (rawSlug text) as [|c r] eqn:E; [discriminate|].
    simpl. intros [= Hc].
    apply (lowerAscii_not_dash c); [|exact Hc].
    apply (rawSlug_head text). now rewrite E.
  - intros Hlen. rewrite take_ge by exact Hlen.
    rewrite last_map.
    destruct (last (rawSlug text)) as [c|] eqn:E; [|discriminate].
    simpl. intros [= Hc].
    apply (lowerAscii_not_dash c); [|exact Hc].
    now apply (rawSlug_last text).
Qed.

End KeyDeriver.

(** The last part at [Hello World!], whose slug [hello-world] is not cut. *)
Lemma createTranslationKey_slug_witness :
  (length (@slugify asciiHost (js "Hello World!") keyOptions) <= 40)%nat
  /\ last (@createTranslationKey asciiHost (js "Hello World!")) <> Some 45.
Proof.
  split.
  - vm_compute. lia.
  - apply (@createTranslationKey_slug asciiHost (js "Hello World!")).
    vm_compute. lia.
Defined.

(** C3, the counterexample: for thirty-nine [a] followed by a space and [b]
    the slug is the thirty-nine [a], a separator and [b]; cut at forty it
    ends with the separator, which nothing removes afterwards. *)
Lemma C3_counterexample :
  last (@createTranslationKey asciiHost
          (js "aaaaaaaaaaaaaaaaaaaaaaaaaaaaaaaaaaaaaaa b")) = Some 45.
Proof. vm_compute. reflexivity. Qed.

(** ** Template decomposition *)

Section Placeholders.

Lemma replaceSpaceRunsFrom_app b r x y :
  (forall c, last x = Some c -> isWhiteSpace c = false) ->
  replaceSpaceRunsFrom b r (x ++ y)
  = replaceSpaceRunsFrom b r x
    ++ replaceSpaceRunsFrom (match x with [] => b | _ => false end) r y.
Proof.
  revert b. induction x as [|c x' IH]; intros b Hlast; [reflexivity|].
  assert (Hx' : forall d, last x' = Some d -> isWhiteSpace d = false).
  { intros d Hd. apply Hlast. rewrite last_cons, Hd. reflexivity. }
  assert (Hflag : match x' with [] => isWhiteSpace c | _ => false end = false).
  { destruct x'; [|reflexivity]. now apply Hlast. }
  simpl. destruct (isWhiteSpace c).
  - rewrite (IH true Hx'), <- app_assoc. do 2 f_equal.
    destruct x'; [discriminate Hflag | reflexivity].
  - rewrite (IH false Hx'). simpl. do 2 f_equal. now destruct x'.
Qed.

Lemma replaceSpaceRunsFrom_word r w :
  forallb isNameUnit w = true -> replaceSpaceRunsFrom false r w = w.
Proof.
  induction w as [|c w IH]; [reflexivity|]. simpl.
  intros Hw. apply andb_true_iff in Hw as [Hc Hw].
  unfold isNameUnit in Hc. apply andb_true_iff in Hc as [Hc _].
  apply negb_true_iff in Hc. rewrite Hc. now rewrite IH.
Qed.

Lemma word_last w c :
  forallb isNameUnit w = true -> last w = Some c -> isWhiteSpace c = false.
Proof.
  intros Hw Hl. rewrite forallb_forall in Hw.
  assert (Hin : In c w).
  { apply list_elem_of_In, list_elem_of_lookup. exists (pred (length w)).
    now rewrite <- last_lookup. }
  apply Hw in Hin. unfold isNameUnit in Hin.
  apply andb_true_iff in Hin as [Hc _]. now apply negb_true_iff in Hc.
Qed.

Lemma trim_fixed s :
  (forall c, head s = Some c -> isWhiteSpace c = false) ->
  (forall c, last s = Some c -> isWhiteSpace c = false) ->
  trim s = s.
Proof.
  intros Hh Hl. unfold trim, trimEnd.
  assert (Hstart : forall t, (forall c, head t = Some c -> isWhiteSpace c = false)
                             -> trimStart t = t).
  { intros [|x t] Ht; [reflexivity|]. simpl. now rewrite (Ht x eq_refl). }
  rewrite (Hstart s Hh). rewrite Hstart.
  - apply reverse_involutive.
  - intros c. rewrite head_reverse. apply Hl.
Qed.

Lemma closingAt_name n rest :
  forallb isNameUnit n = true ->
  closingAt (n ++ 125 :: 125 :: rest) = Some (length n + 2)%nat.
Proof.
  induction n as [|c n IH]; [reflexivity|].
  intros Hn. apply andb_true_iff in Hn as [Hc Hn].
  unfold isNameUnit in Hc. apply andb_true_iff in Hc as [Hws H125].
  apply negb_true_iff in Hws, H125.
  simpl. rewrite H125. simpl.
  assert (Hlt : isLineTerminator c = false).
  { unfold isWhiteSpace in Hws. now apply orb_false_iff in Hws as [_ Hlt]. }
  rewrite Hlt, (IH Hn). reflexivity.
Qed.

Lemma removePlaceholdersFrom_skip a rest :
  removePlaceholdersFrom (length a) (a ++ rest) = removePlaceholdersFrom O rest.
Proof. induction a as [|c a IH]; [reflexivity | exact IH]. Qed.

Lemma removePlaceholders_placeholder n rest :
  forallb isNameUnit n = true ->
  removePlaceholdersFrom O (js "{{" ++ n ++ js "}}" ++ rest)
  = removePlaceholdersFrom O rest.
Proof.
  intros Hn.
  change (js "{{" ++ n ++ js "}}" ++ rest)
    with (123 :: 123 :: n ++ 125 :: 125 :: rest).
  cbn [removePlaceholdersFrom placeholderAt].
  change ((123 =? 123) && (123 =? 123)) with true. cbv iota.
  rewrite (closingAt_name n rest Hn). simpl.
  replace (n ++ 125 :: 125 :: rest) with ((n ++ [125; 125]) ++ rest)
    by (now rewrite <- app_assoc).
  replace (length n + 2)%nat with (length (n ++ [125; 125]))
    by (rewrite length_app; reflexivity).
  apply removePlaceholdersFrom_skip.
Qed.

Lemma removePlaceholders_literal q rest :
  forallb (fun c => negb (c =? 123)) q = true ->
  removePlaceholdersFrom O (q ++ rest) = q ++ removePlaceholdersFrom O rest.
Proof.
  induction q as [|c q IH]; [reflexivity|].
  intros Hq. apply andb_true_iff in Hq as [Hc Hq].
  apply negb_true_iff in Hc.
  change ((c :: q) ++ rest) with (c :: (q ++ rest)).
  cbn [removePlaceholdersFrom].
  assert (Hp : placeholderAt (c :: q ++ rest) = None).
  { unfold placeholderAt. destruct (q ++ rest); [reflexivity|].
    now rewrite Hc. }
  rewrite Hp, (IH Hq). reflexivity.
Qed.

(** The placeholders of the sample are removed whatever their names are:
    the key is derived from the literal chunks alone. *)
Lemma helloRole_names_do_not_matter n1 n2 :
  forallb isNameUnit n1 = true -> forallb isNameUnit n2 = true ->
  sanitizeText (helloRoleText n1 n2) = helloRoleText n1 n2
  /\ removePlaceholders (helloRoleText n1 n2) = js "Hello , role ".
Proof.
  intros H1 H2. split.
  - unfold sanitizeText, replaceSpaceRuns.
    change (helloRoleText n1 n2)
      with (js "Hello {{" ++ n1 ++ js "}}, role {{" ++ n2 ++ js "}}").
    rewrite (replaceSpaceRunsFrom_app false _ (js "Hello {{"))
      by (intros c [= <-]; reflexivity).
    rewrite (replaceSpaceRunsFrom_app false _ n1)
      by (intros c; apply word_last; exact H1).
    rewrite (replaceSpaceRunsFrom_word _ n1 H1).
    assert (Hflag : forall w : JSString,
               match w with [] => false | _ => false end = false)
      by (now intros []).
    rewrite Hflag.
    rewrite (replaceSpaceRunsFrom_app false _ (js "}}, role {{"))
      by (intros c [= <-]; reflexivity).
    rewrite (replaceSpaceRunsFrom_app false _ n2)
      by (intros c; apply word_last; exact H2).
    rewrite (replaceSpaceRunsFrom_word _ n2 H2), Hflag.
    change (replaceSpaceRunsFrom false (js " ") (js "Hello {{"))
      with (js "Hello {{").
    change (replaceSpaceRunsFrom false (js " ") (js "}}, role {{"))
      with (js "}}, role {{").
    change (replaceSpaceRunsFrom false (js " ") (js "}}")) with (js "}}").
    apply trim_fixed.
    + intros c [= <-]. reflexivity.
    + intros c. rewrite !last_app. simpl. intros [= <-]. reflexivity.
  - unfold removePlaceholders, helloRoleText.
    rewrite (removePlaceholders_literal (js "Hello ")) by reflexivity.
    rewrite (removePlaceholders_placeholder n1 _ H1).
    rewrite (removePlaceholders_literal (js ", role ")) by reflexivity.
    rewrite <- (app_nil_r (js "}}")).
    rewrite (removePlaceholders_placeholder n2 [] H2).
    reflexivity.
Qed.

End Placeholders.

Lemma fold_left_ext_In {A B} (f g : A -> B -> A) (l : list B) (a : A) :
  (forall acc x, In x l -> f acc x = g acc x) ->
  fold_left f l a = fold_left g l a.
Proof.
  revert a. induction l as [|x l IH]; intros a Hfg; [reflexivity|].
  simpl. rewrite (Hfg a x) by now left.
  apply IH. intros acc y Hy. apply Hfg. now right.
Qed.

(** On ASCII text the key depends on the host only through the entries
    of the character map for the code units of the text. *)
Lemma createTranslationKey_ascii_ext (H : Host) (text : JSString) :
  forallb isAscii text = true ->
  (forall c, In c text -> @charMap H c = asciiCharMap c) ->
  @createTranslationKey H text = @createTranslationKey asciiHost text.
Proof.
  intros Hascii Hmap. unfold createTranslationKey.
  rewrite (@slugify_keyOptions H), (@slugify_keyOptions asciiHost).
  do 2 f_equal. unfold rawSlug, normalize. rewrite Hascii.
  do 3 f_equal. apply fold_left_ext_In. intros acc c Hc.
  unfold slugifyStep. now rewrite (Hmap c Hc).
Qed.

(** C4: for [`Hello ${user.name}, role ${user.role}`] the pass builds the
    text [Hello {{name}}, role {{role}}] and the bindings [name: user.name]
    and [role: user.role], in this order, each value being the expression
    of the template itself; the key is derived from the sanitized text
    without its placeholders, [Hello , role ], which no placeholder name
    can change, and is [hello-role].  In a component [Greeting] the
    template becomes [t('greeting.hello-role', {name: user.name, role:
    user.role})] and the catalog gets the text under that key. *)
Theorem template_decomposition :
  let template := fst (alloc Samples.helloRole []) in
  let h := snd (alloc Samples.helloRole []) in
  (exists e1 e2,
      expressionsOf h template = [e1; e2]
      /\ toTree h e1 = Samples.memberExpression "user" "name"
      /\ toTree h e2 = Samples.memberExpression "user" "role"
      /\ templateParts h template
         = (js "Hello {{name}}, role {{role}}",
            [objectProperty (identifier (js "name")) (TVal e1) false;
             objectProperty (identifier (js "role")) (TVal e2) false]))
  /\ sanitizeText (js "Hello {{name}}, role {{role}}")
     = js "Hello {{name}}, role {{role}}"
  /\ removePlaceholders (js "Hello {{name}}, role {{role}}")
     = js "Hello , role "
  /\ (forall n1 n2,
         forallb isNameUnit n1 = true -> forallb isNameUnit n2 = true ->
         removePlaceholders (sanitizeText (helloRoleText n1 n2))
         = js "Hello , role ")
  /\ (forall H : Host,
         (forall c, In c (js "Hello , role ") -> @charMap H c = None) ->
         @createTranslationKey H (js "Hello , role ") = js "hello-role")
  /\ @transform asciiHost Samples.greeting (js "translations.json")
       Samples.pkg ∅
     = Some
         (Samples.file
            [importDeclaration
               [importSpecifier (identifier (js "useTranslation"))]
               (literal Samples.pkg);
             Samples.importFrom "react";
             Samples.functionDeclaration "Greeting"
               [hookDeclaration;
                returnStatement
                  (Samples.jsxElement "p" []
                     [jsxExpressionContainer
                        (translationCall (js "greeting") (js "hello-role")
                           [objectExpression
                              [objectProperty (identifier (js "name"))
                                 (Samples.memberExpression "user" "name") false;
                               objectProperty (identifier (js "role"))
                                 (Samples.memberExpression "user" "role")
                                 false]])])]],
          {[ js "greeting" :=
               {[ js "hello-role" := js "Hello {{name}}, role {{role}}" ]} ]}).
Proof.
  cbv zeta. split.
  { eexists. eexists. repeat split; vm_compute; reflexivity. }
  split; [vm_compute; reflexivity|].
  split; [vm_compute; reflexivity|].
  split.
  { intros n1 n2 H1 H2.
    destruct (helloRole_names_do_not_matter n1 n2 H1 H2) as [-> Hrm].
    exact Hrm. }
  split.
  { intros H Hmap. rewrite createTranslationKey_ascii_ext.
    - vm_compute. reflexivity.
    - reflexivity.
    - intros c Hc. rewrite (Hmap c Hc).
      simpl in Hc. repeat destruct Hc as [<- | Hc]; try reflexivity.
      contradiction. }
  vm_compute. reflexivity.
Qed.

(** The same template with the names [firstName] and [var2] in its
    placeholders: the text the key is derived from, and the key, are the
    same. *)
Lemma template_decomposition_witness :
  forallb isNameUnit (js "firstName") = true
  /\ forallb isNameUnit (js "var2") = true
  /\ removePlaceholders
       (sanitizeText (helloRoleText (js "firstName") (js "var2")))
     = js "Hello , role "
  /\ (forall c, In c (js "Hello , role ") -> @charMap asciiHost c = None)
  /\ @createTranslationKey asciiHost (js "Hello , role ") = js "hello-role".
Proof.
  pose proof template_decomposition as (_ & _ & _ & Hnames & Hkey & _).
  assert (Hmap : forall c, In c (js "Hello , role ")
                           -> @charMap asciiHost c = None).
  { intros c Hc. simpl in Hc.
    repeat destruct Hc as [<- | Hc]; try reflexivity. contradiction. }
  split; [reflexivity|]. split; [reflexivity|].
  split; [apply Hnames; reflexivity|].
  split; [exact Hmap|].
  apply Hkey. exact Hmap.
Defined.

(** ** Setup injector: the import *)

(** C5 (the defect): [ensureTranslationImport] inserts the import before the
    first import declaration of the file, so in a file that has no import
    declaration it inserts nothing; and it changes nothing when an import
    from the package is already there. *)
Theorem ensureTranslationImport_without_imports (ctx : TransformContext) :
  (find (heap ctx) "ImportDeclaration" (root ctx) = [] ->
   ensureTranslationImport ctx = ctx)
  /\ (existsb (importsFrom (heap ctx) (importPackage ctx))
        (find (heap ctx) "ImportDeclaration" (root ctx)) = true ->
      ensureTranslationImport ctx = ctx).
Proof.
  unfold ensureTranslationImport. split.
  - intros ->. reflexivity.
  - intros ->. reflexivity.
Qed.

(** [function Welcome() { return <div>Hello World</div> }], the input of
    the example in the header of transform.ts, has no import declaration:
    the text is replaced and the hook is added, but the output has no
    import of [useTranslation].  Below [import React from 'react'] the
    import is inserted once, before it, and a second call adds nothing. *)
Lemma ensureTranslationImport_without_imports_witness :
  let ctx := initialContext Samples.welcome Samples.pkg ∅ in
  let ctx1 := initialContext Samples.welcomeWithImport Samples.pkg ∅ in
  find (heap ctx) "ImportDeclaration" (root ctx) = []
  /\ ensureTranslationImport ctx = ctx
  /\ @transform asciiHost Samples.welcome (js "translations.json")
       Samples.pkg ∅
     = Some
         (Samples.file
            [Samples.functionDeclaration "Welcome"
               [hookDeclaration;
                returnStatement
                  (Samples.jsxElement "div" []
                     [jsxExpressionContainer
                        (translationCall (js "welcome") (js "hello-world")
                           [])])]],
          {[ js "welcome" := {[ js "hello-world" := js "Hello World" ]} ]})
  /\ toTree (heap (ensureTranslationImport ctx1)) (value (root ctx1))
     = Samples.file
         [importDeclaration
            [importSpecifier (identifier (js "useTranslation"))]
            (literal Samples.pkg);
          Samples.importFrom "react";
          Samples.functionDeclaration "Welcome"
            [returnStatement
               (Samples.jsxElement "div" [] [Samples.jsxText "Hello World"])]]
  /\ ensureTranslationImport (ensureTranslationImport ctx1)
     = ensureTranslationImport ctx1.
Proof.
  cbv zeta.
  assert (Hnone : find (heap (initialContext Samples.welcome Samples.pkg ∅))
                    "ImportDeclaration"
                    (root (initialContext Samples.welcome Samples.pkg ∅)) = [])
    by (vm_compute; reflexivity).
  split; [exact Hnone|].
  split.
  { apply (proj1 (ensureTranslationImport_without_imports
                    (initialContext Samples.welcome Samples.pkg ∅))).
    exact Hnone. }
  split; [vm_compute; reflexivity|].
  split; [vm_compute; reflexivity|].
  apply (proj2 (ensureTranslationImport_without_imports
                  (ensureTranslationImport
                     (initialContext Samples.welcomeWithImport Samples.pkg ∅)))).
  vm_compute. reflexivity.
Defined.

(** ** Catalog load *)

Section CatalogLoad.
Import FileOperations.

Variable readFileSync : JSString -> option JSString.
Variable parse : JSString -> option JSON.
Variable otherMember : JSON -> JSString -> JSValue.

Abbreviation load := (readTranslations readFileSync parse otherMember).
Abbreviation try := (readTranslationsTry readFileSync parse otherMember).

(** C6: whatever is thrown inside the [try] block is caught and answered
    with the empty catalog: a file that cannot be read, text that does not
    parse, the member of [null].  When a root key is given and the file
    holds an object with that key, the result is the value stored under the
    key; without a root key it is the whole parsed value. *)
Theorem readTranslations_never_throws (path : JSString)
    (translationRoot : option JSString) :
  (try path translationRoot = None -> load path translationRoot = Data (JObject []))
  /\ (readFileSync path = None -> load path translationRoot = Data (JObject []))
  /\ (forall data,
         readFileSync path = Some data -> parse data = None ->
         load path translationRoot = Data (JObject []))
  /\ (forall data members rootKey sub,
         readFileSync path = Some data ->
         parse data = Some (JObject members) ->
         translationRoot = Some rootKey -> rootKey <> [] ->
         ownMember members rootKey = Some sub ->
         load path translationRoot = Data sub)
  /\ (forall data parsed,
         readFileSync path = Some data -> parse data = Some parsed ->
         translationRoot = None ->
         load path translationRoot = Data parsed).
Proof.
  unfold readTranslations, readTranslationsTry.
  split; [now intros ->|].
  split; [now intros ->|].
  split; [intros data -> ; simpl; now intros ->|].
  split.
  - intros data members rootKey sub -> Hparse -> Hne Hsub. simpl.
    rewrite Hparse. simpl. destruct rootKey as [|c r]; [congruence|].
    simpl. now rewrite Hsub.
  - intros data parsed -> Hparse ->. simpl. now rewrite Hparse.
Qed.

End CatalogLoad.

(** A file that does not exist, a file that does not parse, and the catalog
    [{ en: { component: { hello } } }] read with the root key [en] and
    without a root key. *)
Lemma readTranslations_never_throws_witness :
  let load :=
    FileOperations.readTranslations Samples.sampleFiles Samples.sampleParse
      (fun _ _ => FileOperations.Undefined) in
  load (js "missing.json") (Some (js "en"))
  = FileOperations.Data (FileOperations.JObject [])
  /\ load (js "broken.json") (Some (js "en"))
     = FileOperations.Data (FileOperations.JObject [])
  /\ load (js "translations.json") (Some (js "en"))
     = FileOperations.Data
         (FileOperations.JObject
            [(js "component",
              FileOperations.JObject
                [(js "hello", FileOperations.JString (js "Hello"))])])
  /\ load (js "translations.json") None
     = FileOperations.Data Samples.catalogJSON.
Proof.
  cbv zeta.
  pose proof (readTranslations_never_throws Samples.sampleFiles
                Samples.sampleParse (fun _ _ => FileOperations.Undefined))
    as Hload.
  split.
  - apply (Hload (js "missing.json") (Some (js "en"))). reflexivity.
  - split.
    + apply (proj1 (proj2 (proj2 (Hload (js "broken.json") (Some (js "en")))))
               (js "{ en: ")); reflexivity.
    + split.
      * eapply (proj1 (proj2 (proj2 (proj2
                  (Hload (js "translations.json") (Some (js "en")))))));
          [reflexivity | reflexivity | reflexivity | discriminate | reflexivity].
      * apply (proj2 (proj2 (proj2 (proj2
                 (Hload (js "translations.json") None))))
                 Samples.catalogText); reflexivity.
Defined.

(** ** Extraction passes: what they select and what they leave alone *)

Section Passes.
Context `{Host}.

Lemma ensureTranslationImport_translations ctx :
  translations (ensureTranslationImport ctx) = translations ctx.
Proof.
  unfold ensureTranslationImport.
  destruct (existsb _ _); [reflexivity|].
  destruct (head _); [|reflexivity].
  now destruct (alloc _ _).
Qed.

Lemma ensureTranslationHook_translations ctx fn :
  translations (ensureTranslationHook ctx fn) = translations ctx.
Proof.
  unfold ensureTranslationHook.
  destruct (hasHook _ _); [reflexivity|].
  destruct (isFunctionAST _ _); [|reflexivity].
  destruct (alloc hookDeclaration _) as [hook h1].
  destruct (check _ _ _); [reflexivity|].
  now destruct (alloc _ h1).
Qed.

Lemma replaceWith_translations ctx path node :
  translations (replaceWith ctx path node) = translations ctx.
Proof. unfold replaceWith. now destruct (alloc _ _). Qed.





End Passes.



Section TemplateDenyList.
Context `{Host}.



Lemma templateLiteralVisit_translations_skip ctx path :
  getClosestFunctionAST (heap ctx) (Some path) = None ->
  templateLiteralVisit ctx path = ctx.
Proof. intros Hnone. unfold templateLiteralVisit. now rewrite Hnone. Qed.



End TemplateDenyList.


(** ** The whole transform, twice *)

(** C9 (the defect): for [const A = () => <p>{`Hello ${`World`}`}</p>] the
    first run records both texts, [Hello {{var1}}] and [World], but the
    replacement of the inner template is lost: the call that replaces the
    outer template binds [var1] to the inner template node itself, and the
    replacement of the inner one is written into the array of the outer
    template, which is no longer part of the tree.  The output still holds
    [`World`]; the second run, on that output and with the catalog of the
    first, replaces it by [t('a.world')], so the source changes again.  The
    catalog, the import and the hook stay as the first run left them. *)
Theorem transform_twice_nested_template :
  let once := Samples.nestedOutput (Samples.templateLiteral ["World"] []) in
  let twice := Samples.nestedOutput (translationCall (js "a") (js "world") []) in
  @transform asciiHost Samples.nestedTemplate (js "translations.json")
    Samples.pkg ∅
  = Some (once, Samples.nestedCatalog)
  /\ (exists again,
         @transform asciiHost (Samples.reparse once) (js "translations.json")
           Samples.pkg Samples.nestedCatalog
         = Some (again, Samples.nestedCatalog)
         /\ Samples.reparse again = Samples.reparse twice)
  /\ Samples.reparse twice <> Samples.reparse once.
Proof.
  cbv zeta. split; [vm_compute; reflexivity|]. split.
  - eexists. split; vm_compute; reflexivity.
  - vm_compute. intros Heq. congruence.
Qed.

(** ** Setup injector: the hook *)




Lemma typeOf_hookObjects (h : Heap) (v : Val) :
  typeOf (h ++ hookObjects (length h)) v = "BlockStatement"%string ->
  typeOf h v = "BlockStatement"%string.
Proof.
  unfold typeOf, lookupObj. destruct v as [| | | |l]; try exact (fun H => H).
  destruct (decide (l < length h)%nat) as [Hl|Hl].
  - now rewrite lookup_app_l by exact Hl.
  - intros Hty. exfalso. revert Hty.
    replace l with (length h + (l - length h))%nat by lia.
    rewrite lookup_fresh. generalize (l - length h)%nat as k. intros k.
    do 11 (destruct k as [|k]; [simpl; discriminate|]).
    simpl. discriminate.
Qed.

Lemma check_block_hookObjects (h : Heap) (v : Val) :
  check h "BlockStatement" v = false ->
  check (h ++ hookObjects (length h)) "BlockStatement" v = false.
Proof.
  rewrite !check_exact by reflexivity. intros Hv.
  apply String.eqb_neq. intros Hty.
  apply typeOf_hookObjects in Hty. apply String.eqb_neq in Hv. contradiction.
Qed.

Lemma ensureTranslationHook_wrap (ctx : TransformContext)
    (functionAST : ASTPath) (f : nat) (ty : string)
    (fields : list (string * Val)) :
  value functionAST = VRef f ->
  heap ctx !! f = Some (ONode ty fields) ->
  isFunctionAST (heap ctx) (VRef f) = true ->
  check (heap ctx) "BlockStatement" (getField fields "body") = false ->
  hasHook (heap ctx) functionAST = false ->
  ensureTranslationHook ctx functionAST
  = withHeap ctx (wrappedHeap (heap ctx) f ty fields).
Proof.
  intros Hv Hf Hfn Hblock Hhook.
  assert (Hlt : (f < length (heap ctx))%nat) by (eapply lookup_lt_Some; eauto).
  unfold ensureTranslationHook. rewrite Hhook, Hv, Hfn.
  rewrite alloc_hookDeclaration.
  assert (Hbody : prop (heap ctx ++ hookObjects (length (heap ctx))) (VRef f)
                    "body" = getField fields "body").
  { unfold prop, lookupObj. now rewrite lookup_app_l, Hf by exact Hlt. }
  rewrite Hbody.
  rewrite (check_block_hookObjects _ _ Hblock).
  unfold blockStatement, returnStatement.
  cbn [alloc allocAll combine map fst snd].
  rewrite !length_app. cbn [length hookObjects Nat.add].
  unfold assign, lookupObj.
  rewrite !lookup_app_l by (rewrite ?length_app; simpl; lia).
  rewrite Hf. unfold wrappedHeap.
  repeat rewrite <- app_assoc. cbn [app].
  rewrite <- !Nat.add_assoc. reflexivity.
Qed.

Section Wrapped.
Variables (h : Heap) (f : nat) (ty : string) (fields : list (string * Val)).
Hypothesis Hf : (f < length h)%nat.

Let n := length h.
Let h' := wrappedHeap h f ty fields.

Lemma wrapped_function :
  h' !! f = Some (ONode ty (setField fields "body" (VRef (n + 13)))).
Proof.
  subst h'. unfold wrappedHeap. apply list_lookup_insert_eq.
  rewrite length_app. lia.
Qed.

Lemma wrapped_fresh (k : nat) :
  h' !! (n + k)%nat
  = (hookObjects n
       ++ [ONode "ReturnStatement" [("argument", getField fields "body")];
           OArray [VRef (n + 10); VRef (n + 11)];
           ONode "BlockStatement" [("body", VRef (n + 12))]]%string) !! k.
Proof. subst h' n. unfold wrappedHeap. now apply lookup_fresh_insert. Qed.

Lemma wrapped_frame (l : nat) :
  l <> f -> (l < n)%nat -> h' !! l = h !! l.
Proof.
  intros Hne Hl. subst h' n. unfold wrappedHeap.
  rewrite list_lookup_insert_ne by congruence. now apply lookup_app_l.
Qed.

Lemma wrapped_hook_tree : reify 8 h' (VRef (n + 10)) = hookDeclaration.
Proof.
  pose proof (wrapped_fresh 0) as H0. rewrite Nat.add_0_r in H0.
  cbn [reify lookupObj].
  repeat (rewrite ?H0, ?wrapped_fresh;
          cbn [hookObjects app lookup list_lookup map fst snd reify
                 lookupObj]).
  reflexivity.
Qed.

Lemma wrapped_hasHook (functionAST : ASTPath) :
  value functionAST = VRef f -> hasHook h' functionAST = true.
Proof.
  intros Hv. unfold hasHook. apply existsb_exists.
  set (p1 := Path (VRef (n + 13)) (Field "body") (Some functionAST)).
  set (p2 := Path (VRef (n + 12)) (Field "body") (Some p1)).
  set (p3 := Path (VRef (n + 10)) (Index 0) (Some p2)).
  set (p4 := Path (VRef (n + 9)) (Field "declarations") (Some p3)).
  set (p5 := Path (VRef (n + 8)) (Index 0) (Some p4)).
  set (p6 := Path (VRef (n + 7)) (Field "init") (Some p5)).
  exists p6. split.
  - unfold find.
    replace (S (length h')) with (S (S (S (S (S (S (S (n + 8))))))))
      by (subst h' n; unfold wrappedHeap;
          rewrite length_insert, !length_app; simpl; lia).
    eapply findFrom_below;
      [eapply children_field;
       [rewrite Hv; exact wrapped_function | apply setField_In]|].
    eapply findFrom_below;
      [eapply children_field;
       [subst p1; cbn [value lookupObj]; rewrite wrapped_fresh; reflexivity
       | now left]|].
    eapply findFrom_below;
      [eapply (children_index _ _ _ 0%nat);
       [subst p2; cbn [value lookupObj]; rewrite wrapped_fresh; reflexivity
       | reflexivity]|].
    eapply findFrom_below;
      [eapply children_field;
       [subst p3; cbn [value lookupObj]; rewrite wrapped_fresh; reflexivity
       | right; now left]|].
    eapply findFrom_below;
      [eapply (children_index _ _ _ 0%nat);
       [subst p4; cbn [value lookupObj]; rewrite wrapped_fresh; reflexivity
       | reflexivity]|].
    eapply findFrom_here.
    + eapply children_field;
        [subst p5; cbn [value lookupObj]; rewrite wrapped_fresh; reflexivity
        | right; now left].
    + unfold check, typeOf. subst p6. cbn [value lookupObj].
      rewrite wrapped_fresh. reflexivity.
  - unfold isUseTranslationCall, prop, typeOf. subst p6. cbn [value lookupObj].
    rewrite wrapped_fresh. cbn.
    rewrite !wrapped_fresh. cbn. reflexivity.
Qed.

End Wrapped.

(** C10: a unit that already contains a call of [useTranslation] is left as
    it is.  Otherwise, when the body of the function is a single expression
    and not a block, the body becomes a new block of two statements: the
    hook declaration [const { t } = useTranslation()] first, then a [return]
    whose argument is the original body expression, the same object; nothing
    else in the tree and nothing in the catalog changes, and the unit now
    contains the hook call, so that a second call changes nothing. *)
Theorem ensureTranslationHook_expression_body (ctx : TransformContext)
    (functionAST : ASTPath) (f : nat) (ty : string)
    (fields : list (string * Val)) :
  value functionAST = VRef f ->
  heap ctx !! f = Some (ONode ty fields) ->
  isFunctionAST (heap ctx) (VRef f) = true ->
  check (heap ctx) "BlockStatement" (getField fields "body") = false ->
  let ctx' := ensureTranslationHook ctx functionAST in
  let n := length (heap ctx) in
  (hasHook (heap ctx) functionAST = true -> ctx' = ctx)
  /\ (hasHook (heap ctx) functionAST = false ->
      prop (heap ctx') (VRef f) "body" = VRef (n + 13)
      /\ typeOf (heap ctx') (VRef (n + 13)) = "BlockStatement"%string
      /\ lookupObj (heap ctx') (prop (heap ctx') (VRef (n + 13)) "body")
         = Some (OArray [VRef (n + 10); VRef (n + 11)])
      /\ reify 8 (heap ctx') (VRef (n + 10)) = hookDeclaration
      /\ typeOf (heap ctx') (VRef (n + 11)) = "ReturnStatement"%string
      /\ prop (heap ctx') (VRef (n + 11)) "argument" = getField fields "body"
      /\ (forall g, g <> "body"%string ->
                    prop (heap ctx') (VRef f) g = getField fields g)
      /\ (forall l, l <> f -> (l < n)%nat -> heap ctx' !! l = heap ctx !! l)
      /\ translations ctx' = translations ctx
      /\ hasHook (heap ctx') functionAST = true
      /\ ensureTranslationHook ctx' functionAST = ctx').
Proof.
  intros Hv Hf Hfn Hblock ctx' n.
  assert (Hlt : (f < length (heap ctx))%nat) by (eapply lookup_lt_Some; eauto).
  split.
  - intros Hhook. subst ctx'. unfold ensureTranslationHook. now rewrite Hhook.
  - intros Hhook.
    assert (Hctx' : ctx' = withHeap ctx (wrappedHeap (heap ctx) f ty fields))
      by (now apply ensureTranslationHook_wrap).
    assert (Hh : heap ctx' = wrappedHeap (heap ctx) f ty fields)
      by (now rewrite Hctx').
    rewrite Hh.
    pose proof (wrapped_function (heap ctx) f ty fields Hlt) as Hfun.
    pose proof (wrapped_fresh (heap ctx) f ty fields Hlt) as Hfresh.
    assert (Hhas : hasHook (wrappedHeap (heap ctx) f ty fields) functionAST
                   = true) by (now apply wrapped_hasHook).
    fold n in Hfun, Hfresh.
    split; [unfold prop, lookupObj; rewrite Hfun; apply getField_setField|].
    split; [unfold typeOf, lookupObj; now rewrite Hfresh|].
    split.
    { unfold prop, lookupObj. rewrite Hfresh.
      cbn [hookObjects app lookup list_lookup getField String.eqb Ascii.eqb
             Bool.eqb].
      now rewrite Hfresh. }
    split; [apply (wrapped_hook_tree (heap ctx) f ty fields Hlt)|].
    split; [unfold typeOf, lookupObj; now rewrite Hfresh|].
    split; [unfold prop, lookupObj; now rewrite Hfresh|].
    split.
    { intros g Hg. unfold prop, lookupObj. rewrite Hfun.
      now apply getField_setField_other. }
    split; [intros l Hne Hl; now apply wrapped_frame|].
    split; [now rewrite Hctx'|].
    split; [exact Hhas|].
    unfold ensureTranslationHook. now rewrite Hh, Hhas.
Qed.

(** [const Banner = () => <div>Hello</div>]: the body of the arrow function
    becomes [{ const { t } = useTranslation(); return <div>Hello</div>; }],
    the [return] holding the element that was the body, and a second call
    changes nothing. *)
Lemma ensureTranslationHook_expression_body_witness :
  let ctx := Samples.bannerContext in
  let ctx' := ensureTranslationHook ctx Samples.bannerFunction in
  getClosestFunctionAST (heap ctx)
    (head (find (heap ctx) "JSXText" (root ctx)))
  = Some Samples.bannerFunction
  /\ hasHook (heap ctx) Samples.bannerFunction = false
  /\ prop (heap ctx') (VRef 11) "body" = VRef 31
  /\ prop (heap ctx') (VRef 29) "argument" = VRef 10
  /\ ensureTranslationHook ctx' Samples.bannerFunction = ctx'
  /\ toTree (heap ctx') (value (root ctx'))
     = Samples.file
         [Samples.importFrom "react";
          Samples.constDeclaration "Banner"
            (Samples.arrowFunction
               (blockStatement
                  [hookDeclaration;
                   returnStatement
                     (Samples.jsxElement "div" [] [Samples.jsxText "Hello"])]))].
Proof.
  cbv zeta.
  pose proof (ensureTranslationHook_expression_body Samples.bannerContext
                Samples.bannerFunction 11 "ArrowFunctionExpression"
                [("params", VRef 4); ("body", VRef 10)]%string
                eq_refl eq_refl eq_refl eq_refl) as [_ Hwrap].
  specialize (Hwrap eq_refl).
  destruct Hwrap as (Hbody & _ & _ & _ & _ & Harg & _ & _ & _ & _ & Hagain).
  split; [vm_compute; reflexivity|].
  split; [vm_compute; reflexivity|].
  split; [exact Hbody|].
  split; [exact Harg|].
  split; [exact Hagain|].
  vm_compute. reflexivity.
Defined.

(** ** Where the passes meet

    Two runs of the whole transform that mark the limits of the results
    above: what is not selected is not replaced, but what lies inside it is
    selected on its own; and the hook is put into the body of a function
    before the node that asked for it is replaced. *)

(** In [<a className={`btn ${`on`}`} />] the template of [className] is
    rejected and stays, while the template inside it is a candidate of its
    own: it is replaced and its text recorded. *)
Example template_inside_rejected_template :
  @transform asciiHost
    (Samples.classNameCard [] [] (Samples.templateLiteral ["on"] []))
    (js "translations.json") Samples.pkg ∅
  = Some (Samples.classNameCard [Samples.translationImport] [hookDeclaration]
            (translationCall (js "card") (js "on") []),
          {[ js "card" := {[ js "on" := js "on" ]} ]}).
Proof. vm_compute. reflexivity. Qed.

(** In [const A = () => `Hello ${name}`] the template is the body of the
    function.  The hook is put in front of it in a new block, and then the
    template is replaced where its path says it hangs, in the field [body]
    of the function: the call takes the place of the block, and the output
    has the import but no hook. *)
Example template_body_replaces_block :
  @transform asciiHost
    (Samples.templateBody []
       (Samples.templateLiteral ["Hello "; ""] [Samples.ident "name"]))
    (js "translations.json") Samples.pkg ∅
  = Some (Samples.templateBody [Samples.translationImport]
            (translationCall (js "a") (js "hello")
               [objectExpression
                  [objectProperty (Samples.ident "name") (Samples.ident "name")
                     true]]),
          {[ js "a" := {[ js "hello" := js "Hello {{name}}" ]} ]}).
Proof. vm_compute. reflexivity. Qed.

(** * Further properties

    ** Text clean-up: [sanitizeText] *)

Section Sanitize.

Lemma replaceSpaceRunsFrom_units b s :
  Forall (fun c => isWhiteSpace c = true -> c = 32)
    (replaceSpaceRunsFrom b (js " ") s).
Proof.
  revert b. induction s as [|c r IH]; intros b; simpl; [constructor|].
  destruct (isWhiteSpace c) eqn:E.
  - destruct b; simpl; [apply IH|]. constructor; [reflexivity | apply IH].
  - constructor; [congruence | apply IH].
Qed.

Lemma replaceSpaceRunsFrom_run_head r s c :
  head (replaceSpaceRunsFrom true r s) = Some c -> isWhiteSpace c = false.
Proof.
  induction s as [|x s IH]; simpl; [discriminate|].
  destruct (isWhiteSpace x) eqn:E; simpl; [exact IH|].
  intros [= <-]. exact E.
Qed.

Lemma replaceSpaceRunsFrom_no_double b s i c d :
  replaceSpaceRunsFrom b (js " ") s !! i = Some c ->
  replaceSpaceRunsFrom b (js " ") s !! S i = Some d ->
  isWhiteSpace c = true -> isWhiteSpace d = false.
Proof.
  revert b i. induction s as [|x s IH]; intros b i; simpl; [discriminate|].
  destruct (isWhiteSpace x) eqn:E.
  - destruct b; simpl; [apply IH|].
    destruct i as [|i]; simpl.
    + intros _ Hd _. apply (replaceSpaceRunsFrom_run_head (js " ") s).
      rewrite head_lookup. exact Hd.
    + apply IH.
  - destruct i as [|i]; simpl.
    + intros [= <-] _ Hc. congruence.
    + apply IH.
Qed.

Lemma replaceSpaceRunsFrom_content b r s :
  Forall (fun c => isWhiteSpace c = true) r ->
  List.filter (fun c => negb (isWhiteSpace c)) (replaceSpaceRunsFrom b r s)
  = List.filter (fun c => negb (isWhiteSpace c)) s.
Proof.
  intros Hr.
  assert (Hnil : List.filter (fun c => negb (isWhiteSpace c)) r = []).
  { induction Hr as [|c r Hc _ IH]; [reflexivity|]. simpl. now rewrite Hc. }
  revert b. induction s as [|x s IH]; intros b; simpl; [reflexivity|].
  destruct (isWhiteSpace x) eqn:E; simpl.
  - rewrite List.filter_app, IH. destruct b; simpl; [reflexivity|].
    now rewrite Hnil.
  - rewrite E. simpl. now rewrite IH.
Qed.

Lemma replaceSpaceRunsFrom_length b s :
  (length (replaceSpaceRunsFrom b (js " ") s) <= length s)%nat.
Proof.
  revert b. induction s as [|x s IH]; intros b; simpl; [lia|].
  destruct (isWhiteSpace x).
  - destruct b; simpl; [specialize (IH true) | specialize (IH true)]; lia.
  - simpl. specialize (IH false). lia.
Qed.

(** What [replace] has produced, [replace] leaves alone. *)
Lemma replaceSpaceRunsFrom_stable s :
  (forall b, replaceSpaceRunsFrom false (js " ")
               (replaceSpaceRunsFrom b (js " ") s)
             = replaceSpaceRunsFrom b (js " ") s)
  /\ replaceSpaceRunsFrom true (js " ") (replaceSpaceRunsFrom true (js " ") s)
     = replaceSpaceRunsFrom true (js " ") s.
Proof.
  induction s as [|x s [IH1 IH2]]; [split; [intros b|]; reflexivity|].
  simpl. destruct (isWhiteSpace x) eqn:E.
  - split; [intros [|]|]; simpl.
    + apply IH1.
    + change (isWhiteSpace 32) with true. cbv iota. simpl. now rewrite IH2.
    + apply IH2.
  - split; [intros b|]; simpl; rewrite E; now rewrite IH1.
Qed.

Lemma trimStart_content s :
  List.filter (fun c => negb (isWhiteSpace c)) (trimStart s)
  = List.filter (fun c => negb (isWhiteSpace c)) s.
Proof.
  induction s as [|x s IH]; [reflexivity|]. simpl.
  destruct (isWhiteSpace x) eqn:E; simpl; [exact IH|]. now rewrite E.
Qed.

Lemma filter_reverse_units (f : N -> bool) (s : JSString) :
  List.filter f (reverse s) = reverse (List.filter f s).
Proof.
  induction s as [|x s IH]; [reflexivity|].
  rewrite reverse_cons, List.filter_app, IH. simpl.
  destruct (f x); [now rewrite reverse_cons | now rewrite app_nil_r].
Qed.

Lemma trim_content s :
  List.filter (fun c => negb (isWhiteSpace c)) (trim s)
  = List.filter (fun c => negb (isWhiteSpace c)) s.
Proof.
  unfold trim, trimEnd.
  rewrite filter_reverse_units, trimStart_content, filter_reverse_units,
    reverse_involutive.
  apply trimStart_content.
Qed.

(** [trimEnd] drops a suffix of white space. *)
Lemma trimEnd_prefix s :
  exists post,
    s = trimEnd s ++ post /\ Forall (fun c => isWhiteSpace c = true) post.
Proof.
  unfold trimEnd.
  assert (Hstart : forall t, exists pre,
             t = pre ++ trimStart t
             /\ Forall (fun c => isWhiteSpace c = true) pre).
  { induction t as [|x t (pre & Ht & Hpre)]; simpl.
    - exists []. now split.
    - destruct (isWhiteSpace x) eqn:E.
      + exists (x :: pre). split; [simpl; now f_equal | now constructor].
      + exists []. now split. }
  destruct (Hstart (reverse s)) as (pre & Hs & Hpre).
  exists (reverse pre). split.
  - rewrite <- reverse_app, <- Hs. now rewrite reverse_involutive.
  - now apply Forall_reverse.
Qed.

Lemma trimStart_prefix s :
  exists pre,
    s = pre ++ trimStart s /\ Forall (fun c => isWhiteSpace c = true) pre.
Proof.
  induction s as [|x s (pre & Hs & Hpre)]; simpl.
  - exists []. now split.
  - destruct (isWhiteSpace x) eqn:E.
    + exists (x :: pre). split; [simpl; now f_equal | now constructor].
    + exists []. now split.
Qed.

Lemma replaceSpaceRunsFrom_blank_run r s :
  Forall (fun c => isWhiteSpace c = true) s ->
  replaceSpaceRunsFrom true r s = [].
Proof.
  induction 1 as [|x s Hx _ IH]; [reflexivity|]. simpl. now rewrite Hx, IH.
Qed.

Lemma replaceSpaceRunsFrom_blank b s :
  Forall (fun c => isWhiteSpace c = true) s ->
  (length (replaceSpaceRunsFrom b (js " ") s) <= 1)%nat.
Proof.
  intros Hs. destruct Hs as [|x s Hx Hs]; simpl; [lia|].
  rewrite Hx, (replaceSpaceRunsFrom_blank_run _ s Hs).
  destruct b; simpl; lia.
Qed.

Lemma trimStart_runs b s :
  trimStart (replaceSpaceRunsFrom b (js " ") s)
  = replaceSpaceRunsFrom true (js " ") s.
Proof.
  revert b. induction s as [|x s IH]; intros b; [reflexivity|]. simpl.
  destruct (isWhiteSpace x) eqn:E.
  - destruct b; simpl; apply IH.
  - simpl. now rewrite E.
Qed.

End Sanitize.

(** The sanitized text is what is left of the runs after the white space
    at its end has gone. *)
Lemma sanitizeText_runs (text : JSString) :
  sanitizeText text = trimEnd (replaceSpaceRunsFrom true (js " ") text).
Proof.
  unfold sanitizeText, trim, replaceSpaceRuns. now rewrite trimStart_runs.
Qed.

Lemma sanitizeText_idempotent (text : JSString) :
  sanitizeText (sanitizeText text) = sanitizeText text.
Proof.
  set (s := sanitizeText text).
  assert (Hhead : forall c, head s = Some c -> isWhiteSpace c = false)
    by (intros c; apply trim_head).
  assert (Hlast : forall c, last s = Some c -> isWhiteSpace c = false)
    by (intros c; apply trim_last).
  destruct (trimEnd_prefix (replaceSpaceRunsFrom true (js " ") text))
    as (post & HX & Hpost).
  rewrite <- (sanitizeText_runs text) in HX. fold s in HX.
  set (X := replaceSpaceRunsFrom true (js " ") text) in *.
  assert (Hfix : replaceSpaceRunsFrom false (js " ") s = s).
  { destruct s as [|c0 s0] eqn:Es; [reflexivity|]. rewrite <- Es in *.
    pose proof (proj1 (replaceSpaceRunsFrom_stable text) true) as Hst.
    fold X in Hst. rewrite HX in Hst.
    rewrite replaceSpaceRunsFrom_app in Hst by exact Hlast.
    apply app_inj_1 in Hst; [apply Hst|].
    pose proof (replaceSpaceRunsFrom_length false s) as H1.
    pose proof (replaceSpaceRunsFrom_length
                  (match s with [] => false | _ => false end) post) as H2.
    apply (f_equal (@length N)) in Hst. rewrite !length_app in Hst. lia. }
  unfold sanitizeText at 1. unfold replaceSpaceRuns. rewrite Hfix.
  now apply trim_fixed.
Qed.

(** [sanitizeText] returns a text of words separated by single spaces: it
    has no white space at either end, every white-space unit in it is the
    space and is followed by a unit that is not white space, and its other
    units are those of the input, in their order.  So the function changes
    nothing when it is applied to its own result. *)
Theorem sanitizeText_single_spaces (text : JSString) :
  let s := sanitizeText text in
  sanitizeText s = s
  /\ (forall c, head s = Some c -> isWhiteSpace c = false)
  /\ (forall c, last s = Some c -> isWhiteSpace c = false)
  /\ (forall i c,
         s !! i = Some c -> isWhiteSpace c = true ->
         c = 32 /\ exists d, s !! S i = Some d /\ isWhiteSpace d = false)
  /\ List.filter (fun c => negb (isWhiteSpace c)) s
     = List.filter (fun c => negb (isWhiteSpace c)) text.
Proof.
  intros s.
  assert (Hlast : forall c, last s = Some c -> isWhiteSpace c = false)
    by (intros c; apply trim_last).
  destruct (trimEnd_prefix (replaceSpaceRunsFrom true (js " ") text))
    as (post & HX & Hpost).
  rewrite <- (sanitizeText_runs text) in HX. fold s in HX.
  set (X := replaceSpaceRunsFrom true (js " ") text) in *.
  split; [apply sanitizeText_idempotent|].
  split; [intros c; apply trim_head|]. split; [exact Hlast|]. split.
  - intros i c Hi Hc.
    assert (HiX : X !! i = Some c).
    { rewrite HX. now apply lookup_app_l_Some. }
    split.
    + pose proof (replaceSpaceRunsFrom_units true text) as Hunits.
      fold X in Hunits. rewrite Forall_forall in Hunits.
      apply Hunits; [|exact Hc].
      apply list_elem_of_lookup. now exists i.
    + destruct (s !! S i) as [d|] eqn:Ed.
      * exists d. split; [reflexivity|].
        apply (replaceSpaceRunsFrom_no_double true text i c d); fold X;
          [exact HiX | | exact Hc].
        rewrite HX. now apply lookup_app_l_Some.
      * exfalso. apply lookup_ge_None in Ed.
        pose proof Hi as Hlt. apply lookup_lt_Some in Hlt.
        assert (Hl : last s = Some c).
        { rewrite last_lookup. replace (pred (length s)) with i by lia.
          exact Hi. }
        apply Hlast in Hl. congruence.
  - subst s. unfold sanitizeText, replaceSpaceRuns.
    rewrite trim_content. apply replaceSpaceRunsFrom_content.
    repeat constructor.
Qed.

Lemma sanitizeText_content (text : JSString) :
  List.filter (fun c => negb (isWhiteSpace c)) (sanitizeText text)
  = List.filter (fun c => negb (isWhiteSpace c)) text.
Proof.
  unfold sanitizeText, replaceSpaceRuns.
  rewrite trim_content. apply replaceSpaceRunsFrom_content.
  repeat constructor.
Qed.

Lemma trimStart_blank (s : JSString) :
  Forall (fun c => isWhiteSpace c = true) s -> trimStart s = [].
Proof.
  induction 1 as [|c s Hc _ IH]; [reflexivity|]. simpl. now rewrite Hc.
Qed.

Lemma trim_blank (s : JSString) :
  Forall (fun c => isWhiteSpace c = true) s -> trim s = [].
Proof.
  intros Hs. unfold trim, trimEnd. now rewrite (trimStart_blank s Hs).
Qed.

Lemma blank_content (s : JSString) :
  List.filter (fun c => negb (isWhiteSpace c)) s = [] ->
  Forall (fun c => isWhiteSpace c = true) s.
Proof.
  induction s as [|c s IH]; [constructor|]. simpl.
  destruct (isWhiteSpace c) eqn:E; simpl; [|discriminate].
  intros Hs. constructor; [exact E | now apply IH].
Qed.

Lemma empty_string_denied :
  includes CONSTANTS.TRANSLATION_BLACKLIST [] = true.
Proof. vm_compute. reflexivity. Qed.

(** The filter of the text pass and the value the pass records: a text of
    white space only (the line breaks and indentation between elements) is
    never selected, and the sanitized value of a selected text is not
    empty. *)
Theorem isTranslatable_blank_text (text : JSString) :
  (Forall (fun c => isWhiteSpace c = true) text -> isTranslatable text = false)
  /\ (isTranslatable text = true -> sanitizeText text <> []).
Proof.
  split.
  - intros Hblank. unfold isTranslatable.
    rewrite (trim_blank text Hblank), empty_string_denied. reflexivity.
  - intros Hsel Hnil.
    assert (Hblank : Forall (fun c => isWhiteSpace c = true) text).
    { apply blank_content. rewrite <- sanitizeText_content, Hnil. reflexivity. }
    unfold isTranslatable in Hsel.
    rewrite (trim_blank text Hblank), empty_string_denied in Hsel.
    discriminate Hsel.
Qed.

(** A line break with indentation, and the text [  Hello  ]. *)
Lemma isTranslatable_blank_text_witness :
  isTranslatable [10; 32; 32; 9] = false
  /\ sanitizeText (js "  Hello  ") <> [].
Proof.
  split.
  - apply (proj1 (isTranslatable_blank_text [10; 32; 32; 9])).
    repeat constructor.
  - apply (proj2 (isTranslatable_blank_text (js "  Hello  "))).
    vm_compute. reflexivity.
Defined.

(** ** Key derivation: [createTranslationKey] *)

Ltac unbool :=
  repeat match goal with
  | H : _ && _ = true |- _ => apply andb_true_iff in H; destruct H
  | H : _ || _ = false |- _ => apply orb_false_iff in H; destruct H
  | H : negb _ = true |- _ => apply negb_true_iff in H
  | H : negb _ = false |- _ => apply negb_false_iff in H
  | H : (_ <=? _) = true |- _ => apply N.leb_le in H
  | H : (_ <=? _) = false |- _ => apply N.leb_gt in H
  | H : (_ <? _) = true |- _ => apply N.ltb_lt in H
  | H : (_ <? _) = false |- _ => apply N.ltb_ge in H
  | H : (_ =? _) = true |- _ => apply N.eqb_eq in H
  | H : (_ =? _) = false |- _ => apply N.eqb_neq in H
  end.

Lemma isAlnum_cases c :
  isAlnum c = true ->
  (65 <= c <= 90) \/ (97 <= c <= 122) \/ (48 <= c <= 57).
Proof.
  unfold isAlnum, isUpperAscii, isLowerAscii, isDigitAscii.
  rewrite !orb_true_iff, !andb_true_iff, !N.leb_le. tauto.
Qed.

Lemma removeClass_alnum c : isAlnum c = true -> removeClass c = false.
Proof.
  intros Hc. apply isAlnum_cases in Hc.
  unfold removeClass. cbn [js list_ascii_of_string map app existsb].
  repeat (apply orb_false_iff; split); try reflexivity;
    apply N.eqb_neq; cbn; lia.
Qed.

Lemma alnum_not_separator c : isAlnum c = true -> strEq [c] (js "-") = false.
Proof.
  intros Hc. apply isAlnum_cases in Hc.
  unfold strEq. apply bool_decide_eq_false. intros [= ->]. lia.
Qed.

Section EmptyKey.
Context `{Host}.

Lemma slugifyStep_plain result c :
  charMap c = None ->
  slugifyStep keyOptions (js "-") result c = result ++ plainChunk c.
Proof. intros Hc. unfold slugifyStep, plainChunk. now rewrite Hc. Qed.

Lemma fold_slugifyStep_plain units result :
  (forall c, In c units -> charMap c = None) ->
  fold_left (slugifyStep keyOptions (js "-")) units result
  = result ++ flat_map plainChunk units.
Proof.
  revert result. induction units as [|c units IH]; intros result Hmap; simpl.
  - now rewrite app_nil_r.
  - rewrite slugifyStep_plain by (apply Hmap; now left).
    rewrite IH by (intros d Hd; apply Hmap; now right).
    now rewrite <- app_assoc.
Qed.

Lemma plainChunk_alnum c : isAlnum c = true -> plainChunk c = [c].
Proof.
  intros Hc. unfold plainChunk. rewrite (alnum_not_separator c Hc).
  simpl. now rewrite (removeClass_alnum c Hc).
Qed.

Lemma plainChunk_units c d :
  In d (plainChunk c) -> d = c \/ d = 32.
Proof.
  unfold plainChunk. intros Hd. apply filter_In in Hd as [Hd _].
  destruct (strEq [c] (js "-")); simpl in Hd; intuition.
Qed.

Lemma replaceSpaceRunsFrom_empty b r s :
  r <> [] -> replaceSpaceRunsFrom b r s = [] ->
  Forall (fun c => isWhiteSpace c = true) s.
Proof.
  intros Hr. revert b. induction s as [|c s IH]; intros b; [constructor|].
  simpl. destruct (isWhiteSpace c) eqn:E; [|discriminate].
  intros Hnil. apply app_eq_nil in Hnil as [_ Hnil].
  constructor; [exact E | now apply (IH true)].
Qed.

Lemma trim_empty s :
  trim s = [] -> Forall (fun c => isWhiteSpace c = true) s.
Proof.
  intros Hnil. apply blank_content. rewrite <- trim_content, Hnil. reflexivity.
Qed.

Lemma rawSlug_empty text :
  rawSlug text = []
  <-> Forall (fun c => isAlnum c = false)
        (fold_left (slugifyStep keyOptions (js "-")) (normalize text) []).
Proof.
  unfold rawSlug.
  set (slug := fold_left (slugifyStep keyOptions (js "-")) (normalize text) []).
  split.
  - intros Hnil.
    assert (Hblank : Forall (fun c => isWhiteSpace c = true)
                       (List.filter isStrictChar slug)).
    { apply trim_empty.
      unfold replaceSpaceRuns in Hnil.
      apply replaceSpaceRunsFrom_empty in Hnil; [|discriminate].
      pose proof (trim_head (List.filter isStrictChar slug)) as Hhead.
      destruct (trim (List.filter isStrictChar slug)) as [|c r];
        [reflexivity|].
      inversion Hnil as [|? ? Hc _]; subst.
      rewrite (Hhead c eq_refl) in Hc. discriminate Hc. }
    rewrite Forall_forall. intros c Hc.
    destruct (isAlnum c) eqn:E; [exfalso | reflexivity].
    rewrite Forall_forall in Hblank.
    assert (Hin : c ∈ List.filter isStrictChar slug).
    { apply list_elem_of_In, filter_In. split; [now apply list_elem_of_In|].
      unfold isStrictChar. unfold isAlnum in E. now rewrite E. }
    apply Hblank in Hin. rewrite (whitespace_not_alnum c E) in Hin.
    discriminate Hin.
  - intros Hno.
    assert (Hblank : Forall (fun c => isWhiteSpace c = true)
                       (List.filter isStrictChar slug)).
    { rewrite Forall_forall. intros c Hc.
      apply list_elem_of_In, filter_In in Hc as [Hc Hstrict].
      destruct (isWhiteSpace c) eqn:E; [reflexivity | exfalso].
      apply (strict_cases c Hstrict) in E.
      rewrite Forall_forall in Hno.
      apply list_elem_of_In, Hno in Hc. congruence. }
    rewrite (trim_blank _ Hblank). reflexivity.
Qed.

End EmptyKey.

Section KeyShape.
Context `{Host}.

Lemma createTranslationKey_raw text :
  createTranslationKey text = take 40 (map lowerAscii (rawSlug text)).
Proof.
  unfold createTranslationKey, slice0. now rewrite slugify_keyOptions.
Qed.

Lemma plain_units_alnum units :
  Forall (fun c => isAlnum c = false) (flat_map plainChunk units)
  <-> Forall (fun c => isAlnum c = false) units.
Proof.
  rewrite !Forall_forall. split.
  - intros Hno c Hc. destruct (isAlnum c) eqn:E; [|reflexivity].
    rewrite <- E. apply Hno. apply list_elem_of_In, in_flat_map.
    exists c. split; [now apply list_elem_of_In|].
    rewrite (plainChunk_alnum c E). now left.
  - intros Hno d Hd. apply list_elem_of_In, in_flat_map in Hd as (c & Hc & Hd).
    apply plainChunk_units in Hd as [-> | ->].
    + apply Hno. now apply list_elem_of_In.
    + reflexivity.
Qed.


(** The key is empty exactly when the text has no ASCII letter and no
    digit, for a text none of whose units has an entry in the character map
    of slugify: punctuation, symbols and the letters of a script that the
    map does not cover are all dropped by the [strict] option. *)
Theorem createTranslationKey_empty (text : JSString) :
  (forall c, In c (normalize text) -> charMap c = None) ->
  (createTranslationKey text = []
   <-> Forall (fun c => isAlnum c = false) (normalize text)).
Proof.
  intros Hmap.
  rewrite <- plain_units_alnum.
  rewrite <- (app_nil_l (flat_map plainChunk (normalize text))).
  rewrite <- (fold_slugifyStep_plain (normalize text) [] Hmap).
  rewrite <- rawSlug_empty, createTranslationKey_raw.
  destruct (rawSlug text) as [|c r]; [tauto|].
  simpl. split; discriminate.
Qed.

End KeyShape.

(** The text [?!], and a text of two Han characters. *)
Lemma createTranslationKey_empty_witness :
  @createTranslationKey asciiHost (js "?!") = []
  /\ @createTranslationKey asciiHost [20320; 22909] = [].
Proof.
  split.
  - apply (@createTranslationKey_empty asciiHost (js "?!")).
    + intros c Hc. vm_compute in Hc.
      repeat destruct Hc as [<- | Hc]; try reflexivity. contradiction.
    + repeat constructor.
  - apply (@createTranslationKey_empty asciiHost [20320; 22909]).
    + intros c Hc. vm_compute in Hc.
      repeat destruct Hc as [<- | Hc]; try reflexivity. contradiction.
    + repeat constructor.
Defined.

(** *** Texts that share a key *)

Lemma lowerAscii_whitespace c : isWhiteSpace (lowerAscii c) = isWhiteSpace c.
Proof.
  unfold lowerAscii. destruct (isUpperAscii c) eqn:E; [|reflexivity].
  unfold isUpperAscii in E. unbool.
  assert (Hc : isWhiteSpace c = false).
  { unfold isWhiteSpace, isLineTerminator.
    repeat (apply orb_false_iff; split);
      try (apply N.eqb_neq; lia);
      apply andb_false_iff; left; apply N.leb_gt; lia. }
  rewrite Hc. unfold isWhiteSpace, isLineTerminator.
  repeat (apply orb_false_iff; split);
    try (apply N.eqb_neq; lia);
    apply andb_false_iff; left; apply N.leb_gt; lia.
Qed.

Lemma lowerAscii_strict c : isStrictChar (lowerAscii c) = isStrictChar c.
Proof.
  unfold isStrictChar. rewrite lowerAscii_whitespace.
  unfold lowerAscii. destruct (isUpperAscii c) eqn:E; [|now rewrite E].
  assert (Hl : isLowerAscii (c + 32) = true).
  { unfold isUpperAscii in E. unbool.
    unfold isLowerAscii. apply andb_true_iff. split; apply N.leb_le; lia. }
  rewrite Hl, orb_true_r. reflexivity.
Qed.

Lemma lowerAscii_idempotent c : lowerAscii (lowerAscii c) = lowerAscii c.
Proof.
  unfold lowerAscii. destruct (isUpperAscii c) eqn:E; [|now rewrite E].
  assert (Hu : isUpperAscii (c + 32) = false).
  { unfold isUpperAscii in *. unbool.
    apply andb_false_iff. right. apply N.leb_gt. lia. }
  now rewrite Hu.
Qed.

Lemma lowerAscii_ascii c : isAscii (lowerAscii c) = isAscii c.
Proof.
  unfold lowerAscii. destruct (isUpperAscii c) eqn:E; [|reflexivity].
  unfold isUpperAscii, isAscii in *. unbool.
  replace (c <? 128) with true by (symmetry; apply N.ltb_lt; lia).
  apply N.ltb_lt. lia.
Qed.

Section MapCommutes.
Variable f : N -> N.
Hypothesis f_whitespace : forall c, isWhiteSpace (f c) = isWhiteSpace c.

Lemma map_reverse_units (s : JSString) : map f (reverse s) = reverse (map f s).
Proof.
  induction s as [|c s IH]; [reflexivity|].
  simpl. rewrite !reverse_cons, map_app, IH. reflexivity.
Qed.

Lemma map_trimStart s : map f (trimStart s) = trimStart (map f s).
Proof.
  induction s as [|c s IH]; [reflexivity|]. simpl.
  rewrite f_whitespace. destruct (isWhiteSpace c); [exact IH | reflexivity].
Qed.

Lemma map_trim s : map f (trim s) = trim (map f s).
Proof.
  unfold trim, trimEnd.
  now rewrite map_reverse_units, map_trimStart, map_reverse_units,
    map_trimStart.
Qed.

Lemma map_replaceSpaceRunsFrom b r s :
  map f r = r ->
  map f (replaceSpaceRunsFrom b r s) = replaceSpaceRunsFrom b r (map f s).
Proof.
  intros Hr. revert b. induction s as [|c s IH]; intros b; [reflexivity|].
  simpl. rewrite f_whitespace. destruct (isWhiteSpace c).
  - rewrite map_app, IH. destruct b; [reflexivity | now rewrite Hr].
  - simpl. now rewrite IH.
Qed.

End MapCommutes.

Lemma map_filter_strict s :
  map lowerAscii (List.filter isStrictChar s)
  = List.filter isStrictChar (map lowerAscii s).
Proof.
  induction s as [|c s IH]; [reflexivity|]. simpl.
  rewrite lowerAscii_strict. destruct (isStrictChar c); simpl; now rewrite IH.
Qed.

Section SharedKeys.
Context `{Host}.

(** The key is a function of the lowered slug before [strict]. *)
Lemma createTranslationKey_lowered text :
  createTranslationKey text
  = take 40
      (replaceSpaceRunsFrom false (js "-")
         (trim (List.filter isStrictChar
                  (map lowerAscii
                     (fold_left (slugifyStep keyOptions (js "-"))
                        (normalize text) []))))).
Proof.
  rewrite createTranslationKey_raw. unfold rawSlug, replaceSpaceRuns.
  rewrite (map_replaceSpaceRunsFrom lowerAscii lowerAscii_whitespace)
    by reflexivity.
  rewrite (map_trim lowerAscii lowerAscii_whitespace).
  now rewrite map_filter_strict.
Qed.

End SharedKeys.

Lemma removeClass_cases c :
  removeClass c = true ->
  In c [42; 43; 126; 46; 40; 41; 39; 33; 58; 64; 34].
Proof.
  unfold removeClass. rewrite existsb_exists.
  intros (d & Hd & Heq). apply N.eqb_eq in Heq. subst d. exact Hd.
Qed.

Lemma removeClass_not_separator c :
  removeClass c = true -> strEq [c] (js "-") = false.
Proof.
  intros Hc. apply removeClass_cases in Hc.
  unfold strEq. apply bool_decide_eq_false. intros [= ->].
  simpl in Hc. repeat destruct Hc as [Hc | Hc]; try discriminate Hc.
  contradiction.
Qed.

Lemma isLowerAscii_alnum c : isLowerAscii c = true -> isAlnum c = true.
Proof. intros Hc. unfold isAlnum. rewrite Hc. now rewrite orb_true_r. Qed.

Lemma isUpperAscii_alnum c : isUpperAscii c = true -> isAlnum c = true.
Proof. intros Hc. unfold isAlnum. now rewrite Hc. Qed.

Lemma lowerAscii_upper c :
  isUpperAscii c = true -> isLowerAscii (lowerAscii c) = true.
Proof.
  intros Hc. unfold lowerAscii. rewrite Hc.
  unfold isUpperAscii in Hc. unbool.
  unfold isLowerAscii. apply andb_true_iff. split; apply N.leb_le; lia.
Qed.

Section SharedKey.
Context `{Host}.
Hypothesis plain_letters :
  forall c,
    isUpperAscii c || isLowerAscii c || removeClass c = true ->
    charMap c = None.

Lemma slugifyStep_append o r result c :
  slugifyStep o r result c = result ++ slugifyStep o r [] c.
Proof. reflexivity. Qed.

Lemma fold_slugifyStep o r units result :
  fold_left (slugifyStep o r) units result
  = result ++ flat_map (slugifyStep o r []) units.
Proof.
  revert result. induction units as [|c units IH]; intros result; simpl.
  - now rewrite app_nil_r.
  - rewrite IH, slugifyStep_append. now rewrite <- app_assoc.
Qed.

Lemma slugifyStep_letter c :
  isAlnum c = true -> charMap c = None ->
  slugifyStep keyOptions (js "-") [] c = [c].
Proof.
  intros Hc Hmap. unfold slugifyStep. rewrite Hmap.
  rewrite (alnum_not_separator c Hc). simpl.
  now rewrite (removeClass_alnum c Hc).
Qed.

Lemma slugifyStep_removed c :
  removeClass c = true -> slugifyStep keyOptions (js "-") [] c = [].
Proof.
  intros Hc. unfold slugifyStep.
  rewrite plain_letters by (rewrite Hc; now rewrite orb_true_r).
  rewrite (removeClass_not_separator c Hc). simpl. now rewrite Hc.
Qed.

(** The lowered slug is built from the text without the removed units and
    with its letters lowered. *)
Lemma lowered_slug units :
  map lowerAscii (flat_map (slugifyStep keyOptions (js "-") []) units)
  = flat_map (fun c => map lowerAscii (slugifyStep keyOptions (js "-") [] c))
      (map lowerAscii (List.filter (fun c => negb (removeClass c)) units)).
Proof.
  induction units as [|c units IH]; [reflexivity|].
  cbn [flat_map List.filter]. rewrite map_app, IH.
  destruct (removeClass c) eqn:Erm; cbn [negb].
  - now rewrite (slugifyStep_removed c Erm).
  - cbn [map flat_map]. f_equal.
    destruct (isUpperAscii c) eqn:Eup.
    + rewrite (slugifyStep_letter c) by
        (try apply isUpperAscii_alnum; try apply plain_letters;
         rewrite ?Eup; reflexivity).
      rewrite (slugifyStep_letter (lowerAscii c)).
      * cbn [map]. now rewrite lowerAscii_idempotent.
      * apply isLowerAscii_alnum. now apply lowerAscii_upper.
      * apply plain_letters. rewrite (lowerAscii_upper c Eup).
        now rewrite orb_true_r.
    + assert (Hc : lowerAscii c = c) by (unfold lowerAscii; now rewrite Eup).
      now rewrite Hc.
Qed.

Lemma normalize_ascii text : forallb isAscii text = true -> normalize text = text.
Proof. intros Ha. unfold normalize. now rewrite Ha. Qed.

(** Texts that differ only in the case of their ASCII letters and in the
    punctuation of the [remove] option get the same key, on a host whose
    character map has no entry for such units (as the map of slugify has
    none). *)
Theorem createTranslationKey_shared (text1 text2 : JSString) :
  forallb isAscii text1 = true ->
  forallb isAscii text2 = true ->
  map lowerAscii (List.filter (fun c => negb (removeClass c)) text1)
  = map lowerAscii (List.filter (fun c => negb (removeClass c)) text2) ->
  createTranslationKey text1 = createTranslationKey text2.
Proof.
  intros Ha1 Ha2 Hsame.
  rewrite !createTranslationKey_lowered.
  rewrite (normalize_ascii text1 Ha1), (normalize_ascii text2 Ha2).
  rewrite !fold_slugifyStep. cbn [app].
  now rewrite !lowered_slug, Hsame.
Qed.

End SharedKey.

Lemma asciiCharMap_letters c :
  isUpperAscii c || isLowerAscii c || removeClass c = true ->
  asciiCharMap c = None.
Proof.
  intros Hc.
  assert (Hne : c <> 36 /\ c <> 37 /\ c <> 38 /\ c <> 60 /\ c <> 62
                /\ c <> 124 /\ c <> 169).
  { apply orb_true_iff in Hc as [Hc | Hc];
      [apply orb_true_iff in Hc as [Hc | Hc]|].
    - unfold isUpperAscii in Hc. unbool. lia.
    - unfold isLowerAscii in Hc. unbool. lia.
    - apply removeClass_cases in Hc. simpl in Hc.
      repeat destruct Hc as [<- | Hc]; lia. }
  destruct Hne as (H1 & H2 & H3 & H4 & H5 & H6 & H7).
  unfold asciiCharMap.
  repeat match goal with
         | |- context [?a =? ?b] =>
             replace (a =? b) with false by (symmetry; now apply N.eqb_neq)
         end.
  reflexivity.
Qed.

(** [Hello World!] and [hello world]. *)
Lemma createTranslationKey_shared_witness :
  @createTranslationKey asciiHost (js "Hello World!")
  = @createTranslationKey asciiHost (js "hello world").
Proof.
  apply (@createTranslationKey_shared asciiHost asciiCharMap_letters);
    reflexivity.
Defined.

(** ** The catalog *)

Section Catalog.

Lemma entryOf_addTranslation t c k v :
  entryOf (addTranslation t c k v) c k = Some v.
Proof.
  unfold entryOf, addTranslation. rewrite lookup_insert_eq. simpl.
  apply lookup_insert_eq.
Qed.

Lemma entryOf_addTranslation_other t c k v c' k' :
  (c', k') <> (c, k) ->
  entryOf (addTranslation t c k v) c' k' = entryOf t c' k'.
Proof.
  intros Hne. unfold entryOf, addTranslation.
  destruct (decide (c = c')) as [<- | Hc].
  - rewrite lookup_insert_eq. simpl.
    rewrite lookup_insert_ne by congruence.
    destruct (t !! c); [reflexivity | apply lookup_empty].
  - now rewrite lookup_insert_ne.
Qed.




End Catalog.


(** *** What the passes do to the catalog *)

Section CatalogOfPasses.
Context `{Host}.

(** The entry a visitor records: a sanitized text under the key derived
    from it, with or without its placeholders. *)
Lemma jsxTextVisit_recorded ctx path :
  translations (jsxTextVisit ctx path) = translations ctx
  \/ exists c k v,
       translations (jsxTextVisit ctx path)
       = addTranslation (translations ctx) c k v
       /\ sanitizeText v = v
       /\ (k = createTranslationKey v
           \/ k = createTranslationKey (removePlaceholders v)).
Proof.
  unfold jsxTextVisit.
  destruct (getClosestFunctionAST _ _) as [fn|]; [right | now left].
  eexists _, _, _. split; [|split; [|left; reflexivity]].
  - rewrite replaceWith_translations, ensureTranslationHook_translations,
      ensureTranslationImport_translations. reflexivity.
  - apply sanitizeText_idempotent.
Qed.

Lemma jsxAttributeVisit_recorded ctx path :
  translations (jsxAttributeVisit ctx path) = translations ctx
  \/ exists c k v,
       translations (jsxAttributeVisit ctx path)
       = addTranslation (translations ctx) c k v
       /\ sanitizeText v = v
       /\ (k = createTranslationKey v
           \/ k = createTranslationKey (removePlaceholders v)).
Proof.
  unfold jsxAttributeVisit.
  destruct (negb _); [now left|].
  destruct (getClosestFunctionAST _ _) as [fn|]; [right | now left].
  eexists _, _, _. split; [|split; [|left; reflexivity]].
  - rewrite replaceWith_translations, ensureTranslationHook_translations,
      ensureTranslationImport_translations. reflexivity.
  - apply sanitizeText_idempotent.
Qed.

Lemma templateLiteralVisit_recorded ctx path :
  translations (templateLiteralVisit ctx path) = translations ctx
  \/ exists c k v,
       translations (templateLiteralVisit ctx path)
       = addTranslation (translations ctx) c k v
       /\ sanitizeText v = v
       /\ (k = createTranslationKey v
           \/ k = createTranslationKey (removePlaceholders v)).
Proof.
  unfold templateLiteralVisit.
  destruct (getClosestFunctionAST _ _) as [fn|]; [right | now left].
  destruct (templateParts _ _) as [text expressionProperties].
  eexists _, _, _. split; [|split; [|right; reflexivity]].
  - rewrite replaceWith_translations, ensureTranslationHook_translations,
      ensureTranslationImport_translations. reflexivity.
  - apply sanitizeText_idempotent.
Qed.

Section Invariant.
Variable P : Translations -> Prop.
Hypothesis P_recorded :
  forall t c k v,
    P t -> sanitizeText v = v ->
    k = createTranslationKey v
    \/ k = createTranslationKey (removePlaceholders v) ->
    P (addTranslation t c k v).

Lemma fold_left_recorded
    (visit : TransformContext -> ASTPath -> TransformContext)
    (paths : list ASTPath) :
  (forall ctx p,
      translations (visit ctx p) = translations ctx
      \/ exists c k v,
           translations (visit ctx p)
           = addTranslation (translations ctx) c k v
           /\ sanitizeText v = v
           /\ (k = createTranslationKey v
               \/ k = createTranslationKey (removePlaceholders v))) ->
  forall ctx, P (translations ctx) ->
              P (translations (fold_left visit paths ctx)).
Proof.
  intros Hvisit. induction paths as [|p paths IH]; intros ctx Hctx;
    [exact Hctx|].
  simpl. apply IH.
  destruct (Hvisit ctx p) as [-> | (c & k & v & -> & Hv & Hk)];
    [exact Hctx | now apply P_recorded].
Qed.

Lemma applyTransformations_recorded ctx :
  P (translations ctx) -> P (translations (applyTransformations ctx)).
Proof.
  intros Hctx. unfold applyTransformations, transformTemplateLiterals,
    transformJSXAttributes, transformJSXText.
  apply fold_left_recorded; [apply templateLiteralVisit_recorded|].
  apply fold_left_recorded; [apply jsxAttributeVisit_recorded|].
  apply fold_left_recorded; [apply jsxTextVisit_recorded|].
  exact Hctx.
Qed.

End Invariant.

Lemma initialContext_translations source importName loaded :
  translations (initialContext source importName loaded) = loaded.
Proof. unfold initialContext. now destruct (alloc source []). Qed.

Lemma transform_catalog source translationFilePath importName loaded out catalog :
  transform source translationFilePath importName loaded = Some (out, catalog) ->
  catalog
  = translations
      (applyTransformations (initialContext source importName loaded)).
Proof.
  unfold transform.
  destruct translationFilePath; [discriminate|].
  destruct importName; [discriminate|].
  now intros [= _ <-].
Qed.


(** The transform never takes an entry out of the catalog it was given:
    every key of every component of the loaded catalog is a key of that
    component in the catalog that is written. *)
Theorem transform_keeps_entries (source : Tree)
    (translationFilePath importName : JSString) (loaded : Translations)
    (out : Tree) (catalog : Translations) :
  transform source translationFilePath importName loaded = Some (out, catalog) ->
  forall c k,
    is_Some (entryOf loaded c k) -> is_Some (entryOf catalog c k).
Proof.
  intros Hrun. apply transform_catalog in Hrun. subst catalog.
  apply (applyTransformations_recorded
           (fun t => forall c k, is_Some (entryOf loaded c k)
                                 -> is_Some (entryOf t c k))).
  - intros t c k v Ht _ _ c' k' Hloaded.
    destruct (decide ((c', k') = (c, k))) as [[= -> ->] | Hne].
    + rewrite entryOf_addTranslation. eauto.
    + rewrite entryOf_addTranslation_other by exact Hne. now apply Ht.
  - rewrite initialContext_translations. auto.
Qed.


End CatalogOfPasses.

(** [welcomeWithImport] with a catalog that already has a text of
    [welcome] and a text of another component: both are still there, next
    to the text the run records. *)
Lemma transform_keeps_entries_witness :
  let loaded : Translations :=
    {[ js "welcome" := {[ js "old" := js "Old" ]};
       js "footer" := {[ js "imprint" := js "Imprint" ]} ]} in
  let catalog : Translations :=
    {[ js "welcome" :=
         <[ js "hello-world" := js "Hello World" ]> {[ js "old" := js "Old" ]};
       js "footer" := {[ js "imprint" := js "Imprint" ]} ]} in
  @transform asciiHost Samples.welcomeWithImport (js "translations.json")
    Samples.pkg loaded
  = Some (Samples.welcomeOutput, catalog)
  /\ is_Some (entryOf catalog (js "welcome") (js "old"))
  /\ is_Some (entryOf catalog (js "footer") (js "imprint")).
Proof.
  intros loaded catalog.
  assert (Hrun : @transform asciiHost Samples.welcomeWithImport
                   (js "translations.json") Samples.pkg loaded
                 = Some (Samples.welcomeOutput, catalog))
    by (vm_compute; reflexivity).
  assert (Hold : is_Some (entryOf loaded (js "welcome") (js "old")))
    by (exists (js "Old"); vm_compute; reflexivity).
  assert (Himprint : is_Some (entryOf loaded (js "footer") (js "imprint")))
    by (exists (js "Imprint"); vm_compute; reflexivity).
  split; [exact Hrun|]. split.
  - exact (@transform_keeps_entries asciiHost _ _ _ _ _ _ Hrun _ _ Hold).
  - exact (@transform_keeps_entries asciiHost _ _ _ _ _ _ Hrun _ _ Himprint).
Defined.


(** ** Setup injector: the hook in a block body *)

Lemma getField_In fs f l : getField fs f = VRef l -> In (f, VRef l) fs.
Proof.
  induction fs as [|[g v] fs IH]; simpl; [discriminate|].
  destruct (String.eqb g f) eqn:E.
  - apply String.eqb_eq in E as ->. intros ->. now left.
  - intros Hf. right. now apply IH.
Qed.

Lemma ensureTranslationHook_unshift (ctx : TransformContext)
    (functionAST : ASTPath) (f b a : nat) (ty : string)
    (fields bfields : list (string * Val)) (statements : list Val) :
  value functionAST = VRef f ->
  heap ctx !! f = Some (ONode ty fields) ->
  isFunctionAST (heap ctx) (VRef f) = true ->
  getField fields "body" = VRef b ->
  heap ctx !! b = Some (ONode "BlockStatement" bfields) ->
  getField bfields "body" = VRef a ->
  heap ctx !! a = Some (OArray statements) ->
  hasHook (heap ctx) functionAST = false ->
  ensureTranslationHook ctx functionAST
  = withHeap ctx (unshiftedHeap (heap ctx) a statements).
Proof.
  intros Hv Hf Hfn Hbody Hb Hstatements Ha Hhook.
  assert (Hflt : (f < length (heap ctx))%nat) by (eapply lookup_lt_Some; eauto).
  assert (Hblt : (b < length (heap ctx))%nat) by (eapply lookup_lt_Some; eauto).
  assert (Halt : (a < length (heap ctx))%nat) by (eapply lookup_lt_Some; eauto).
  unfold ensureTranslationHook. rewrite Hhook, Hv, Hfn.
  rewrite alloc_hookDeclaration.
  set (h1 := heap ctx ++ hookObjects (length (heap ctx))).
  assert (Hf1 : h1 !! f = Some (ONode ty fields))
    by (subst h1; now rewrite lookup_app_l).
  assert (Hb1 : h1 !! b = Some (ONode "BlockStatement" bfields))
    by (subst h1; now rewrite lookup_app_l).
  assert (Ha1 : h1 !! a = Some (OArray statements))
    by (subst h1; now rewrite lookup_app_l).
  assert (Hprop : prop h1 (VRef f) "body" = VRef b).
  { unfold prop, lookupObj. now rewrite Hf1. }
  rewrite Hprop.
  assert (Hcheck : check h1 "BlockStatement" (VRef b) = true).
  { rewrite check_exact by reflexivity. unfold typeOf, lookupObj.
    now rewrite Hb1. }
  rewrite Hcheck.
  assert (Harr : prop h1 (VRef b) "body" = VRef a).
  { unfold prop, lookupObj. now rewrite Hb1. }
  rewrite Harr. unfold unshift, lookupObj. rewrite Ha1. reflexivity.
Qed.

Section Unshifted.
Variables (h : Heap) (a : nat) (statements : list Val).
Hypothesis Ha : h !! a = Some (OArray statements).

Lemma unshifted_statements :
  unshiftedHeap h a statements !! a
  = Some (OArray (VRef (length h + 10) :: statements)).
Proof.
  unfold unshiftedHeap. apply list_lookup_insert_eq.
  rewrite length_app. apply lookup_lt_Some in Ha. lia.
Qed.

Lemma unshifted_fresh (k : nat) :
  unshiftedHeap h a statements !! (length h + k)%nat
  = hookObjects (length h) !! k.
Proof.
  unfold unshiftedHeap. apply lookup_fresh_insert.
  now apply lookup_lt_Some in Ha.
Qed.

Lemma unshifted_frame (l : nat) :
  l <> a -> (l < length h)%nat -> unshiftedHeap h a statements !! l = h !! l.
Proof.
  intros Hne Hl. unfold unshiftedHeap.
  rewrite list_lookup_insert_ne by congruence. now apply lookup_app_l.
Qed.

Lemma unshifted_hook_tree :
  reify 8 (unshiftedHeap h a statements) (VRef (length h + 10))
  = hookDeclaration.
Proof.
  pose proof (unshifted_fresh 0) as H0. rewrite Nat.add_0_r in H0.
  cbn [reify lookupObj].
  repeat (rewrite ?H0, ?unshifted_fresh;
          cbn [hookObjects app lookup list_lookup map fst snd reify
                 lookupObj]).
  reflexivity.
Qed.

Lemma unshifted_hasHook (functionAST : ASTPath) (f b : nat) (ty : string)
    (fields bfields : list (string * Val)) :
  value functionAST = VRef f ->
  h !! f = Some (ONode ty fields) ->
  getField fields "body" = VRef b ->
  h !! b = Some (ONode "BlockStatement" bfields) ->
  getField bfields "body" = VRef a ->
  hasHook (unshiftedHeap h a statements) functionAST = true.
Proof.
  intros Hv Hf Hbody Hb Hstatements.
  set (h' := unshiftedHeap h a statements). set (n := length h).
  assert (Hf' : h' !! f = Some (ONode ty fields)).
  { subst h'. rewrite unshifted_frame; [exact Hf | congruence |].
    now apply lookup_lt_Some in Hf. }
  assert (Hb' : h' !! b = Some (ONode "BlockStatement" bfields)).
  { subst h'. rewrite unshifted_frame; [exact Hb | congruence |].
    now apply lookup_lt_Some in Hb. }
  unfold hasHook. apply existsb_exists.
  set (p1 := Path (VRef b) (Field "body") (Some functionAST)).
  set (p2 := Path (VRef a) (Field "body") (Some p1)).
  set (p3 := Path (VRef (n + 10)) (Index 0) (Some p2)).
  set (p4 := Path (VRef (n + 9)) (Field "declarations") (Some p3)).
  set (p5 := Path (VRef (n + 8)) (Index 0) (Some p4)).
  set (p6 := Path (VRef (n + 7)) (Field "init") (Some p5)).
  exists p6. split.
  - unfold find.
    replace (S (length h')) with (S (S (S (S (S (S (n + 6)))))))
      by (subst h' n; unfold unshiftedHeap;
          rewrite length_insert, !length_app; simpl; lia).
    eapply findFrom_below;
      [eapply children_field;
       [rewrite Hv; exact Hf' | apply getField_In; exact Hbody]|].
    eapply findFrom_below;
      [eapply children_field;
       [exact Hb' | apply getField_In; exact Hstatements]|].
    eapply findFrom_below;
      [eapply (children_index _ _ _ 0%nat);
       [subst p2; cbn [value lookupObj]; exact unshifted_statements
       | reflexivity]|].
    eapply findFrom_below;
      [eapply children_field;
       [subst p3; cbn [value lookupObj]; subst h' n;
        rewrite unshifted_fresh; reflexivity
       | right; now left]|].
    eapply findFrom_below;
      [eapply (children_index _ _ _ 0%nat);
       [subst p4; cbn [value lookupObj]; subst h' n;
        rewrite unshifted_fresh; reflexivity
       | reflexivity]|].
    eapply findFrom_here.
    + eapply children_field;
        [subst p5; cbn [value lookupObj]; subst h' n;
         rewrite unshifted_fresh; reflexivity
        | right; now left].
    + unfold check, typeOf. subst p6. cbn [value lookupObj]. subst h' n.
      rewrite unshifted_fresh. reflexivity.
  - unfold isUseTranslationCall, prop, typeOf. subst p6. cbn [value lookupObj].
    subst h' n. rewrite unshifted_fresh. cbn.
    rewrite !unshifted_fresh. cbn. reflexivity.
Qed.

End Unshifted.

(** When the body of the function is a block and the unit has no call of
    [useTranslation], the hook declaration becomes the first statement of
    the block and the statements that were there follow it in their order;
    the function, the block and every other object stay as they were, the
    catalog too; the unit then contains the hook call, so that a second
    call changes nothing. *)
Theorem ensureTranslationHook_block_body (ctx : TransformContext)
    (functionAST : ASTPath) (f b a : nat) (ty : string)
    (fields bfields : list (string * Val)) (statements : list Val) :
  value functionAST = VRef f ->
  heap ctx !! f = Some (ONode ty fields) ->
  isFunctionAST (heap ctx) (VRef f) = true ->
  getField fields "body" = VRef b ->
  heap ctx !! b = Some (ONode "BlockStatement" bfields) ->
  getField bfields "body" = VRef a ->
  heap ctx !! a = Some (OArray statements) ->
  hasHook (heap ctx) functionAST = false ->
  let ctx' := ensureTranslationHook ctx functionAST in
  let n := length (heap ctx) in
  heap ctx' !! a = Some (OArray (VRef (n + 10) :: statements))
  /\ reify 8 (heap ctx') (VRef (n + 10)) = hookDeclaration
  /\ (forall l, l <> a -> (l < n)%nat -> heap ctx' !! l = heap ctx !! l)
  /\ translations ctx' = translations ctx
  /\ hasHook (heap ctx') functionAST = true
  /\ ensureTranslationHook ctx' functionAST = ctx'.
Proof.
  intros Hv Hf Hfn Hbody Hb Hstatements Ha Hhook ctx' n.
  assert (Hctx' : ctx' = withHeap ctx (unshiftedHeap (heap ctx) a statements))
    by (subst ctx'; eapply ensureTranslationHook_unshift; eauto).
  assert (Hh : heap ctx' = unshiftedHeap (heap ctx) a statements)
    by (now rewrite Hctx').
  assert (Hhas : hasHook (unshiftedHeap (heap ctx) a statements) functionAST
                 = true) by (eapply unshifted_hasHook; eauto).
  rewrite Hh.
  split; [now apply unshifted_statements|].
  split; [now apply unshifted_hook_tree|].
  split; [intros l Hne Hl; now apply unshifted_frame|].
  split; [now rewrite Hctx'|].
  split; [exact Hhas|].
  unfold ensureTranslationHook. now rewrite Hh, Hhas.
Qed.

(** [function Welcome() { return <div>Hello World</div> }]: the hook is put
    in front of the [return], and a second call changes nothing. *)
Lemma ensureTranslationHook_block_body_witness :
  let ctx := initialContext Samples.welcomeWithImport Samples.pkg ∅ in
  let ctx' := ensureTranslationHook ctx Samples.welcomeFunction in
  getClosestFunctionAST (heap ctx)
    (head (find (heap ctx) "JSXText" (root ctx)))
  = Some Samples.welcomeFunction
  /\ heap ctx !! 12%nat = Some (OArray [VRef 11])
  /\ heap ctx' !! 12%nat = Some (OArray [VRef 28; VRef 11])
  /\ reify 8 (heap ctx') (VRef 28) = hookDeclaration
  /\ ensureTranslationHook ctx' Samples.welcomeFunction = ctx'.
Proof.
  cbv zeta.
  set (ctx := initialContext Samples.welcomeWithImport Samples.pkg ∅).
  assert (Hf : heap ctx !! 14%nat
               = Some (ONode "FunctionDeclaration"
                         [("id", VRef 3); ("params", VRef 4);
                          ("body", VRef 13)]))
    by (vm_compute; reflexivity).
  assert (Hfn : isFunctionAST (heap ctx) (VRef 14) = true)
    by (vm_compute; reflexivity).
  assert (Hb : heap ctx !! 13%nat
               = Some (ONode "BlockStatement" [("body", VRef 12)]))
    by (vm_compute; reflexivity).
  assert (Ha : heap ctx !! 12%nat = Some (OArray [VRef 11]))
    by (vm_compute; reflexivity).
  assert (Hhook : hasHook (heap ctx) Samples.welcomeFunction = false)
    by (vm_compute; reflexivity).
  assert (Hn : length (heap ctx) = 18%nat) by (vm_compute; reflexivity).
  destruct (ensureTranslationHook_block_body ctx Samples.welcomeFunction
              14 13 12 "FunctionDeclaration"
              [("id", VRef 3); ("params", VRef 4); ("body", VRef 13)]%string
              [("body", VRef 12)]%string [VRef 11]
              eq_refl Hf Hfn eq_refl Hb eq_refl Ha Hhook)
    as (Hfirst & Htree & _ & _ & _ & Hagain).
  rewrite Hn in Hfirst, Htree.
  split; [vm_compute; reflexivity|].
  split; [exact Ha|].
  split; [exact Hfirst|].
  split; [exact Htree | exact Hagain].
Defined.

(** ** Walking the tree: what [find] reaches *)

Lemma children_values (h : Heap) (p : ASTPath) :
  map value (children h p) = childValues h (value p).
Proof.
  unfold children, childValues.
  destruct (lookupObj h (value p)) as [[ty fs|vs]|]; [| |reflexivity].
  - rewrite map_map. reflexivity.
  - assert (Hgen : forall (f : nat -> Val -> ASTPath),
               (forall i v, value (f i v) = v) -> map value (imap f vs) = vs).
    { induction vs as [|v vs IH]; intros f Hf; [reflexivity|]. simpl.
      rewrite Hf. f_equal. apply IH. intros i w. apply Hf. }
    now apply Hgen.
Qed.

Lemma child_value (h : Heap) (p c : ASTPath) :
  In c (children h p) -> In (value c) (childValues h (value p)).
Proof.
  intros Hc. rewrite <- children_values. now apply in_map.
Qed.

Lemma value_child (h : Heap) (p : ASTPath) (v : Val) :
  In v (childValues h (value p)) ->
  exists c, In c (children h p) /\ value c = v.
Proof.
  rewrite <- children_values. intros Hv.
  apply in_map_iff in Hv as (c & Hc & Hin). now exists c.
Qed.

Lemma reaches_child (h : Heap) (k : nat) (u w v : Val) :
  reaches h k u w -> In v (childValues h w) -> reaches h (S k) u v.
Proof.
  induction 1 as [u | k u x w Hx Hrest IH]; intros Hv.
  - eapply reaches_step; [exact Hv | constructor].
  - eapply reaches_step; [exact Hx | now apply IH].
Qed.

Lemma reaches_mono (h h' : Heap) (k : nat) (u v : Val) :
  (forall x y, In y (childValues h x) -> In y (childValues h' x)) ->
  reaches h k u v -> reaches h' k u v.
Proof.
  intros Hmono. induction 1 as [u | k u w v Hw Hrest IH]; [constructor|].
  eapply reaches_step; [apply Hmono; exact Hw | exact IH].
Qed.

(** A path that [find] returns hangs below a path that the walk reached
    with fuel to spare. *)
Lemma findFrom_parent (n : nat) (h : Heap) (ty : string) (q0 p : ASTPath) :
  In p (findFrom n h ty q0) ->
  exists q k,
    parentPath p = Some q /\ In p (children h q)
    /\ (k < n)%nat /\ reaches h k (value q0) (value q).
Proof.
  revert q0. induction n as [|n IH]; intros q0; simpl; [contradiction|].
  intros Hp. apply in_flat_map in Hp as (c & Hc & Hp).
  apply in_app_or in Hp as [Hp | Hp].
  - destruct (check h ty (value c)); [|contradiction].
    destruct Hp as [<- | []].
    exists q0, 0%nat. split; [|split; [exact Hc|split; [lia | constructor]]].
    apply children_shape in Hc. apply Hc.
  - apply IH in Hp as (q & k & Hparent & Hchild & Hk & Hreach).
    exists q, (S k). split; [exact Hparent|]. split; [exact Hchild|].
    split; [lia|].
    eapply reaches_step; [apply child_value; exact Hc | exact Hreach].
Qed.

(** What is of the type looked for and within reach is found. *)
Lemma reaches_findFrom (n : nat) (h : Heap) (ty : string) (k : nat)
    (u v : Val) :
  reaches h (S k) u v -> (S k <= n)%nat -> check h ty v = true ->
  forall q0, value q0 = u ->
             exists p, In p (findFrom n h ty q0) /\ value p = v.
Proof.
  revert k u. induction n as [|n IH]; intros k u Hreach Hk Hty q0 Hq0; [lia|].
  inversion Hreach as [|k' u' w v' Hw Hrest]; subst.
  apply value_child in Hw as (c & Hc & Hcv).
  destruct k as [|k].
  - inversion Hrest; subst. exists c. split; [|reflexivity].
    apply findFrom_here; [exact Hc | exact Hty].
  - destruct (IH k (value c) ltac:(rewrite Hcv; exact Hrest) ltac:(lia) Hty
                c eq_refl) as (p & Hp & Hpv).
    exists p. split; [|exact Hpv].
    eapply findFrom_below; [exact Hc | exact Hp].
Qed.

(** ** Setup injector: the import, where the file has one *)

Lemma alloc_importDeclaration (h : Heap) (importPackage : JSString) :
  alloc (importDeclaration
           [importSpecifier (identifier (js "useTranslation"))]
           (literal importPackage)) h
  = (VRef (length h + 4), h ++ importObjects (length h) importPackage).
Proof.
  unfold importDeclaration, importSpecifier, identifier, literal, tstr.
  cbn [alloc allocAll combine map fst snd]. repeat rewrite <- app_assoc.
  cbn [app]. rewrite !length_app. cbn [length Nat.add].
  reflexivity.
Qed.

Lemma In_insertAt_new {A} (i : nat) (x : A) (l : list A) :
  In x (insertAt i x l).
Proof. unfold insertAt. apply in_or_app. right. now left. Qed.

Section ImportInserted.
Variable ctx : TransformContext.
Variables (first : ASTPath) (rest : list ASTPath) (i : nat).
Hypothesis Hfind :
  find (heap ctx) "ImportDeclaration" (root ctx) = first :: rest.
Hypothesis Hnone :
  existsb (importsFrom (heap ctx) (importPackage ctx)) (first :: rest) = false.
Hypothesis Hname : name first = Index i.

Lemma first_import_slot :
  exists q l vs k,
    parentPath first = Some q /\ value q = VRef l
    /\ heap ctx !! l = Some (OArray vs)
    /\ vs !! i = Some (value first)
    /\ (k < S (length (heap ctx)))%nat
    /\ reaches (heap ctx) k (value (root ctx)) (VRef l).
Proof.
  assert (Hin : In first (find (heap ctx) "ImportDeclaration" (root ctx)))
    by (rewrite Hfind; now left).
  apply findFrom_parent in Hin as (q & k & Hparent & Hchild & Hk & Hreach).
  apply children_shape in Hchild
    as (_ & [(ty & fs & f & _ & _ & Hf) | (vs & j & Hobj & Hj & Hidx)]);
    [rewrite Hname in Hf; discriminate|].
  rewrite Hname in Hidx. injection Hidx as <-.
  destruct (value q) as [| | | |l] eqn:Eq; try discriminate Hobj.
  exists q, l, vs, k. simpl in Hobj.
  repeat (split; [assumption|]). assumption.
Qed.

Lemma ensureTranslationImport_insert (l : nat) (vs : list Val) :
  valueOpt (parentPath first) = VRef l ->
  heap ctx !! l = Some (OArray vs) ->
  ensureTranslationImport ctx
  = withHeap ctx
      (<[l := OArray (insertAt i (VRef (length (heap ctx) + 4)) vs)]>
         (heap ctx ++ importObjects (length (heap ctx)) (importPackage ctx))).
Proof.
  intros Hparent Hl. unfold ensureTranslationImport.
  rewrite Hfind, Hnone. cbn [head].
  rewrite alloc_importDeclaration. unfold insertBefore.
  destruct (parentPath first) as [pp|]; [|discriminate Hparent].
  simpl in Hparent. rewrite Hparent, Hname. cbn [lookupObj].
  rewrite lookup_app_l by (now apply lookup_lt_Some in Hl).
  now rewrite Hl.
Qed.

End ImportInserted.

(** In a file that has import declarations, none of them from the package,
    the import of [useTranslation] is put into the array of the first
    import declaration, at its index, so that everything from there on
    moves up by one; nothing else in the tree and nothing in the catalog
    changes.  The file then has an import from the package, and a second
    call changes nothing. *)
Theorem ensureTranslationImport_before_first (ctx : TransformContext)
    (first : ASTPath) (rest : list ASTPath) (i : nat) :
  find (heap ctx) "ImportDeclaration" (root ctx) = first :: rest ->
  existsb (importsFrom (heap ctx) (importPackage ctx)) (first :: rest) = false ->
  name first = Index i ->
  let ctx' := ensureTranslationImport ctx in
  let n := length (heap ctx) in
  exists l vs,
    valueOpt (parentPath first) = VRef l
    /\ heap ctx !! l = Some (OArray vs)
    /\ vs !! i = Some (value first)
    /\ heap ctx' !! l
       = Some (OArray (take i vs ++ VRef (n + 4) :: drop i vs))
    /\ reify 5 (heap ctx') (VRef (n + 4))
       = importDeclaration
           [importSpecifier (identifier (js "useTranslation"))]
           (literal (importPackage ctx))
    /\ (forall k, k <> l -> (k < n)%nat -> heap ctx' !! k = heap ctx !! k)
    /\ translations ctx' = translations ctx
    /\ existsb (importsFrom (heap ctx') (importPackage ctx'))
         (find (heap ctx') "ImportDeclaration" (root ctx')) = true
    /\ ensureTranslationImport ctx' = ctx'.
Proof.
  intros Hfind Hnone Hname ctx' n.
  destruct (first_import_slot ctx first rest i Hfind Hname)
    as (q & l & vs & k & Hparent & Hq & Hl & Hi & Hk & Hreach).
  assert (Hvalue : valueOpt (parentPath first) = VRef l)
    by (rewrite Hparent; exact Hq).
  exists l, vs. split; [exact Hvalue|]. split; [exact Hl|]. split; [exact Hi|].
  assert (Hlt : (l < n)%nat) by (now apply lookup_lt_Some in Hl).
  set (d := VRef (n + 4)).
  set (h' := <[l := OArray (insertAt i d vs)]>
               (heap ctx ++ importObjects n (importPackage ctx))).
  assert (Hctx' : ctx' = withHeap ctx h').
  { subst ctx' h' d n.
    now apply (ensureTranslationImport_insert ctx first rest i Hfind Hnone
                 Hname l vs). }
  assert (Hslot : h' !! l = Some (OArray (insertAt i d vs))).
  { subst h'. apply list_lookup_insert_eq. rewrite length_app. lia. }
  assert (Hfresh : forall j, h' !! (n + j)%nat
                             = importObjects n (importPackage ctx) !! j).
  { intros j. subst h' n. now apply lookup_fresh_insert. }
  assert (Hframe : forall j, j <> l -> (j < n)%nat -> h' !! j = heap ctx !! j).
  { intros j Hne Hj. subst h'. rewrite list_lookup_insert_ne by congruence.
    now apply lookup_app_l. }
  assert (Hhas : existsb (importsFrom h' (importPackage ctx))
                   (find h' "ImportDeclaration" (root ctx)) = true).
  { assert (Hd : reaches h' (S k) (value (root ctx)) d).
    { eapply reaches_child.
      - eapply reaches_mono; [|exact Hreach].
        intros x y. unfold childValues.
        destruct x as [| | | |j]; simpl; try contradiction.
        destruct (heap ctx !! j) as [o|] eqn:Ej; [|contradiction].
        destruct (decide (j = l)) as [-> | Hne].
        + rewrite Hl in Ej. injection Ej as <-. rewrite Hslot.
          apply In_insertAt.
        + rewrite Hframe; [now rewrite Ej | exact Hne |].
          now apply lookup_lt_Some in Ej.
      - unfold childValues. simpl. rewrite Hslot. apply In_insertAt_new. }
    assert (Hty : check h' "ImportDeclaration" d = true).
    { unfold check, typeOf, d. cbn [lookupObj]. now rewrite Hfresh. }
    assert (Hle : (S k <= S (length h'))%nat).
    { subst h'. rewrite length_insert, length_app. fold n. lia. }
    destruct (reaches_findFrom (S (length h')) h' "ImportDeclaration" k
                (value (root ctx)) d Hd Hle Hty (root ctx) eq_refl)
      as (p & Hp & Hpv).
    apply existsb_exists. exists p. split; [exact Hp|].
    unfold importsFrom. rewrite Hpv. apply bool_decide_eq_true.
    unfold prop, d. cbn [lookupObj]. rewrite Hfresh. cbn.
    now rewrite Hfresh. }
  rewrite Hctx'. cbn [heap translations importPackage root withHeap].
  split; [exact Hslot|]. split.
  { pose proof (Hfresh 0%nat) as H0. rewrite Nat.add_0_r in H0.
    subst d. cbn [reify lookupObj].
    repeat (rewrite ?H0, ?Hfresh;
            cbn [importObjects app lookup list_lookup map fst snd reify
                   lookupObj]).
    reflexivity. }
  split; [exact Hframe|]. split; [reflexivity|]. split; [exact Hhas|].
  unfold ensureTranslationImport.
  cbn [heap translations importPackage root withHeap]. now rewrite Hhas.
Qed.

(** [welcomeWithImport]: the import goes in front of [import React from
    'react'], and a second call changes nothing. *)
Lemma ensureTranslationImport_before_first_witness :
  let ctx := initialContext Samples.welcomeWithImport Samples.pkg ∅ in
  let ctx' := ensureTranslationImport ctx in
  find (heap ctx) "ImportDeclaration" (root ctx) = [Samples.welcomeImport]
  /\ heap ctx !! 15%nat = Some (OArray [VRef 2; VRef 14])
  /\ heap ctx' !! 15%nat = Some (OArray [VRef 22; VRef 2; VRef 14])
  /\ ensureTranslationImport ctx' = ctx'.
Proof.
  cbv zeta.
  set (ctx := initialContext Samples.welcomeWithImport Samples.pkg ∅).
  assert (Hfind : find (heap ctx) "ImportDeclaration" (root ctx)
                  = [Samples.welcomeImport])
    by (vm_compute; reflexivity).
  assert (Hnone : existsb (importsFrom (heap ctx) (importPackage ctx))
                    [Samples.welcomeImport] = false)
    by (vm_compute; reflexivity).
  assert (Hn : length (heap ctx) = 18%nat) by (vm_compute; reflexivity).
  assert (Harray : heap ctx !! 15%nat = Some (OArray [VRef 2; VRef 14]))
    by (vm_compute; reflexivity).
  split; [exact Hfind|]. split; [exact Harray|].
  destruct (ensureTranslationImport_before_first ctx Samples.welcomeImport []
              0 Hfind Hnone eq_refl)
    as (l & vs & Hparent & Hl & _ & Hslot & _ & _ & _ & _ & Hagain).
  injection Hparent as <-. rewrite Harray in Hl. injection Hl as <-.
  rewrite Hn in Hslot. split; [exact Hslot | exact Hagain].
Defined.

(** ** The text pass *)

Section TextPass.
Context `{Host}.



End TextPass.


(** ** The template pass: text and bindings *)

Section TemplateParts.
Variables (h : Heap) (template : Val).

(** The placeholder and the binding of the [j]-th expression. *)
Let placeholder (j : nat) (e : Val) : JSString :=
  cooked h template j ++ js "{{" ++ variableName h j e ++ js "}}".
Let binding (j : nat) (e : Val) : Tree :=
  objectProperty (identifier (variableName h j e)) (TVal e)
    (String.eqb (typeOf h e) "Identifier"
     && bool_decide (prop h e "name" = VStr (variableName h j e))).

Lemma templateLoop_closed (es : list Val) (i : nat) (text : JSString)
    (properties : list Tree) :
  templateLoop h template es i text properties
  = (text ++ concat (imap (fun j => placeholder (i + j)) es),
     properties ++ imap (fun j => binding (i + j)) es,
     (i + length es)%nat).
Proof.
  revert i text properties.
  induction es as [|e es IH]; intros i text properties.
  - simpl. now rewrite !app_nil_r, Nat.add_0_r.
  - cbn [templateLoop imap concat length]. rewrite IH.
    rewrite <- !app_assoc. cbn [app].
    rewrite Nat.add_0_r, Nat.add_succ_r. cbn [Nat.add].
    assert (Hp : imap (fun j => placeholder (S i + j)) es
                 = imap ((fun j => placeholder (i + j)) ∘ S) es)
      by (apply imap_ext; intros j x _; simpl; now rewrite Nat.add_succ_r).
    assert (Hb : imap (fun j => binding (S i + j)) es
                 = imap ((fun j => binding (i + j)) ∘ S) es)
      by (apply imap_ext; intros j x _; simpl; now rewrite Nat.add_succ_r).
    cbn [Nat.add] in Hp, Hb. rewrite Hp, Hb.
    unfold placeholder at 2. rewrite <- !app_assoc. reflexivity.
Qed.

Lemma templateParts_closed :
  templateParts h template
  = (concat (imap placeholder (expressionsOf h template))
       ++ cooked h template (length (expressionsOf h template)),
     imap binding (expressionsOf h template)).
Proof.
  unfold templateParts. rewrite templateLoop_closed. reflexivity.
Qed.

End TemplateParts.

Lemma lastSegmentFrom_plain acc n :
  forallb (fun c => negb (c =? 46)) n = true ->
  lastSegmentFrom acc n = acc ++ n.
Proof.
  revert acc. induction n as [|c n IH]; intros acc Hn; simpl.
  - now rewrite app_nil_r.
  - simpl in Hn. apply andb_true_iff in Hn as [Hc Hn].
    apply negb_true_iff in Hc. rewrite Hc, IH by exact Hn.
    now rewrite <- app_assoc.
Qed.

Lemma lastSegment_member object n :
  forallb (fun c => negb (c =? 46)) n = true ->
  lastSegment (object ++ 46 :: n) = n.
Proof.
  intros Hn. unfold lastSegment. generalize (@nil N) as acc.
  induction object as [|c object IH]; intros acc; simpl.
  - now apply lastSegmentFrom_plain.
  - destruct (c =? 46); apply IH.
Qed.

(** The template pass builds one placeholder and one binding for every
    interpolated expression, in their order: the text is the chunks with
    [{{name}}] between them, and the value of a binding is the expression
    object itself.  An identifier is named by its own name and bound in
    shorthand; a member expression is named by what follows the last full
    stop of its source, whatever the object is; any other expression is
    named [var] followed by its position, counted from one. *)
Theorem templateParts_bindings (h : Heap) (template : Val) :
  let es := expressionsOf h template in
  templateParts h template
  = (concat
       (imap (fun j e =>
                cooked h template j ++ js "{{" ++ variableName h j e ++ js "}}")
          es)
       ++ cooked h template (length es),
     imap (fun j e =>
             objectProperty (identifier (variableName h j e)) (TVal e)
               (String.eqb (typeOf h e) "Identifier"
                && bool_decide (prop h e "name" = VStr (variableName h j e))))
       es)
  /\ (forall j e n,
         typeOf h e = "Identifier"%string -> prop h e "name" = VStr n ->
         variableName h j e = n
         /\ String.eqb (typeOf h e) "Identifier"
            && bool_decide (prop h e "name" = VStr (variableName h j e))
            = true)
  /\ (forall j e object n,
         typeOf h e = "MemberExpression"%string ->
         toSource h e = object ++ 46 :: n ->
         n <> [] -> forallb (fun c => negb (c =? 46)) n = true ->
         variableName h j e = n)
  /\ (forall j e,
         typeOf h e <> "Identifier"%string ->
         typeOf h e <> "MemberExpression"%string ->
         variableName h j e = js "var" ++ decimal (j + 1)).
Proof.
  intros es. split; [apply templateParts_closed|]. split; [|split].
  - intros j e n Hty Hname.
    assert (Hvar : variableName h j e = n).
    { unfold variableName. rewrite Hty, Hname. reflexivity. }
    split; [exact Hvar|]. rewrite Hvar, Hty, Hname. simpl.
    now apply bool_decide_eq_true.
  - intros j e object n Hty Hsource Hn Hdots.
    unfold variableName. rewrite Hty, Hsource. cbn [String.eqb Ascii.eqb Bool.eqb].
    rewrite (lastSegment_member object n Hdots).
    destruct n; [contradiction | reflexivity].
  - intros j e Hid Hmember. unfold variableName.
    apply String.eqb_neq in Hid, Hmember. now rewrite Hid, Hmember.
Qed.

(** *** Templates without a letter or digit outside their placeholders *)










Section TemplateText.
Context `{Host}.











End TemplateText.

Section KeylessTemplates.
Context `{Host}.



End KeylessTemplates.

(** [`${name} ${user.name} ${admin.name} ${f()}`]: the identifier keeps its
    name, both member expressions are named [name], the call is named by
    its position. *)
Lemma templateParts_bindings_witness :
  let template := fst (alloc Samples.mixedTemplate []) in
  let h := snd (alloc Samples.mixedTemplate []) in
  expressionsOf h template = [VRef 11; VRef 14; VRef 17; VRef 20]
  /\ fst (templateParts h template)
     = js "{{name}} {{name}} {{name}} {{var4}}"
  /\ variableName h 0 (VRef 11) = js "name"
  /\ variableName h 1 (VRef 14) = js "name"
  /\ variableName h 2 (VRef 17) = js "name"
  /\ variableName h 3 (VRef 20) = js "var" ++ decimal (3 + 1).
Proof.
  cbv zeta.
  set (h := snd (alloc Samples.mixedTemplate [])).
  set (template := fst (alloc Samples.mixedTemplate [])).
  destruct (templateParts_bindings h template)
    as (_ & Hident & Hmember & Hother).
  split; [vm_compute; reflexivity|].
  split; [vm_compute; reflexivity|].
  split.
  { apply (Hident 0%nat (VRef 11) (js "name")); vm_compute; reflexivity. }
  split.
  { apply (Hmember 1%nat (VRef 14) (js "user") (js "name"));
      try (vm_compute; reflexivity). discriminate. }
  split.
  { apply (Hmember 2%nat (VRef 17) (js "admin") (js "name"));
      try (vm_compute; reflexivity). discriminate. }
  apply (Hother 3%nat (VRef 20)); vm_compute; discriminate.
Defined.


(** ** Files with nothing to translate *)




(** Printing what has just been allocated gives the tree back. *)
Section ReifyAlloc.




End ReifyAlloc.

Section NothingToTranslate.
Context `{Host}.







End NothingToTranslate.

(** *** Files without a unit *)

Section NoUnit.






End NoUnit.




(** ** Writing and reading the catalog *)

Section WriteThenRead.
Import FileOperations.
Variable stringify : JSON -> JSString.
Variable parse : JSString -> option JSON.
Variable otherMember : JSON -> JSString -> JSValue.

Lemma strEq_refl (s : JSString) : strEq s s = true.
Proof. unfold strEq. now apply bool_decide_eq_true. Qed.

Lemma strEq_ne (a b : JSString) : a <> b -> strEq a b = false.
Proof. intros Hne. unfold strEq. now apply bool_decide_eq_false. Qed.

(** What [writeTranslations] has written, [readTranslations] reads back
    with the same root key, when [JSON.parse] returns the document that
    [stringify] was given: the catalog itself.  The file holds nothing but
    that catalog: read with another root key, it has no member of that
    name, whatever the file held before.  No other file is touched. *)
Theorem writeTranslations_readTranslations (files : Files)
    (path : JSString) (translations : JSON)
    (translationRoot : option JSString) :
  parse (stringify (finalTranslations translations translationRoot))
  = Some (finalTranslations translations translationRoot) ->
  let files' :=
    writeTranslations stringify files path translations translationRoot in
  readTranslations files' parse otherMember path translationRoot
  = Data translations
  /\ (forall root other,
         translationRoot = Some root -> root <> [] ->
         other <> [] -> other <> root ->
         readTranslations files' parse otherMember path (Some other)
         = otherMember (JObject [(root, translations)]) other)
  /\ (forall p, p <> path -> files' p = files p).
Proof.
  intros Hparse files'.
  assert (Hread : files' path
                  = Some (stringify
                            (finalTranslations translations translationRoot))).
  { subst files'. unfold writeTranslations, writeFileSync.
    now rewrite strEq_refl. }
  split; [|split].
  - unfold readTranslations, readTranslationsTry. rewrite Hread.
    cbn [mbind option_bind]. rewrite Hparse. cbn [mbind option_bind].
    destruct translationRoot as [[|c r]|]; try reflexivity.
    cbn [finalTranslations member ownMember]. now rewrite strEq_refl.
  - intros root other -> Hroot Hother Hne.
    destruct root as [|c r]; [contradiction|].
    destruct other as [|c' r']; [contradiction|].
    unfold readTranslations, readTranslationsTry. rewrite Hread.
    cbn [mbind option_bind]. rewrite Hparse.
    cbn [mbind option_bind finalTranslations member ownMember].
    rewrite strEq_ne by congruence. reflexivity.
  - intros p Hp. subst files'. unfold writeTranslations, writeFileSync.
    now rewrite strEq_ne.
Qed.

End WriteThenRead.

(** The catalog of the example of [readTranslations], written under the
    root key [en] and read back; read with the root key [de], the file has
    nothing. *)
Lemma writeTranslations_readTranslations_witness :
  let translations :=
    FileOperations.JObject
      [(js "component",
        FileOperations.JObject
          [(js "hello", FileOperations.JString (js "Hello"))])] in
  let files' :=
    writeTranslations (fun _ => Samples.catalogText) Samples.sampleFiles
      (js "translations.json") translations (Some (js "en")) in
  FileOperations.readTranslations files' Samples.sampleParse
    (fun _ _ => FileOperations.Undefined) (js "translations.json")
    (Some (js "en"))
  = FileOperations.Data translations
  /\ FileOperations.readTranslations files' Samples.sampleParse
       (fun _ _ => FileOperations.Undefined) (js "translations.json")
       (Some (js "de"))
     = FileOperations.Undefined.
Proof.
  cbv zeta.
  pose proof (writeTranslations_readTranslations
                (fun _ => Samples.catalogText) Samples.sampleParse
                (fun _ _ => FileOperations.Undefined) Samples.sampleFiles
                (js "translations.json")
                (FileOperations.JObject
                   [(js "component",
                     FileOperations.JObject
                       [(js "hello", FileOperations.JString (js "Hello"))])])
                (Some (js "en")) eq_refl) as (Hsame & Hother & _).
  split; [exact Hsame|].
  apply (Hother (js "en") (js "de")); [reflexivity | | |]; discriminate.
Defined.

(** ** The earlier script and the transform: the same texts are denied *)

Lemma legacy_includes_In (l : list Legacy.Entry) (s : JSString) :
  Legacy.includes l s = true <-> In (Legacy.Str s) l.
Proof.
  unfold Legacy.includes. rewrite existsb_exists. split.
  - intros ([n|s'] & Hin & Heq); [discriminate|].
    unfold strEq in Heq. apply bool_decide_eq_true in Heq. now subst.
  - intros Hin. exists (Legacy.Str s). split; [exact Hin|].
    unfold strEq. now apply bool_decide_eq_true.
Qed.

(** The text filter of the earlier script and the filter of the transform
    agree on every text but the two guillemets, which only the transform
    denies: the tables are written differently (the earlier one holds the
    digits a second time as numbers, which no text is equal to), but they
    hold the same strings otherwise. *)
Theorem legacy_isTranslatable (text : JSString) :
  Legacy.isTranslatable text
  = isTranslatable text || strEq (trim text) [171] || strEq (trim text) [187].
Proof.
  unfold Legacy.isTranslatable, isTranslatable.
  set (s := trim text).
  assert (Hnew : forallb
            (fun e => Legacy.includes Legacy.TRANSLATION_BLACKLIST e
                      || strEq e [171] || strEq e [187])
            CONSTANTS.TRANSLATION_BLACKLIST = true)
    by (vm_compute; reflexivity).
  assert (Hold : forallb
            (fun e => match e with
                      | Legacy.Str e' =>
                          includes CONSTANTS.TRANSLATION_BLACKLIST e'
                          && negb (strEq e' [171]) && negb (strEq e' [187])
                      | Legacy.Num _ => true
                      end)
            Legacy.TRANSLATION_BLACKLIST = true)
    by (vm_compute; reflexivity).
  rewrite forallb_forall in Hnew, Hold.
  destruct (includes CONSTANTS.TRANSLATION_BLACKLIST s) eqn:En.
  - apply includes_In, Hnew in En. cbn [negb orb].
    destruct (Legacy.includes Legacy.TRANSLATION_BLACKLIST s) eqn:El.
    + apply legacy_includes_In, Hold in El.
      apply andb_true_iff in El as [El H187].
      apply andb_true_iff in El as [_ H171].
      apply negb_true_iff in H171, H187. now rewrite H171, H187.
    + cbn [orb] in En. cbn [negb]. symmetry. exact En.
  - cbn [negb orb].
    destruct (Legacy.includes Legacy.TRANSLATION_BLACKLIST s) eqn:El;
      [|reflexivity].
    apply legacy_includes_In, Hold in El.
    apply andb_true_iff in El as [El _].
    apply andb_true_iff in El as [El _]. congruence.
Qed.

(** ** What the passes leave alone *)

(** Each of the three passes writes only where the nodes it selects hang,
    into the bodies of functions (for the hook) and into arrays (for the
    import, the hook and the replacements): every array that was there is
    still an array and holds every element that is not a selected node,
    and every node that was there has its type and, but for the body of a
    function, every field in which no selected node hangs. *)
Theorem passes_write_only_selected `{Host} (ctx : TransformContext) :
  let h := heap ctx in
  let writesOnly (selected : list ASTPath) (h' : Heap) : Prop :=
    (forall l vs,
        h !! l = Some (OArray vs) ->
        exists vs',
          h' !! l = Some (OArray vs')
          /\ forall v,
               In v vs -> (forall p, In p selected -> value p <> v) ->
               In v vs')
    /\ (forall l ty fs,
           h !! l = Some (ONode ty fs) ->
           exists fs',
             h' !! l = Some (ONode ty fs')
             /\ forall f,
                  isFunctionType ty = false \/ f <> "body"%string ->
                  (forall p, In p selected -> ~ isFieldOf l f p) ->
                  getField fs' f = getField fs f) in
  writesOnly (List.filter (jsxTextFilter h) (find h "JSXText" (root ctx)))
    (heap (transformJSXText ctx))
  /\ writesOnly
       (List.filter (jsxAttributeFilter h) (find h "JSXAttribute" (root ctx)))
       (heap (transformJSXAttributes ctx))
  /\ writesOnly
       (List.filter (templateLiteralFilter h)
          (find h "TemplateLiteral" (root ctx)))
       (heap (transformTemplateLiterals ctx)).
Proof.
  intros h writesOnly.
  assert (Hframe : forall selected h', Frame selected h h' ->
                                       writesOnly selected h').
  { intros selected h' [Harrays Hnodes]. split; assumption. }
  split; [|split]; apply Hframe.
  - unfold transformJSXText. apply fold_left_Frame; [|now intros].
    intros c p. apply jsxTextVisit_Frame.
  - unfold transformJSXAttributes. apply fold_left_Frame; [|now intros].
    intros c p. apply jsxAttributeVisit_Frame.
  - unfold transformTemplateLiterals. apply fold_left_Frame; [|now intros].
    intros c p. apply templateLiteralVisit_Frame.
Qed.

(** ** The hook test looks below nested functions *)

Lemma findFrom_reaches (n : nat) (h : Heap) (ty : string) (q0 p : ASTPath) :
  In p (findFrom n h ty q0) ->
  exists k, (k < n)%nat /\ reaches h (S k) (value q0) (value p)
            /\ check h ty (value p) = true.
Proof.
  intros Hp. pose proof Hp as Hsound.
  apply findFrom_sound in Hsound as (Hty & _).
  apply findFrom_parent in Hp as (q & k & _ & Hchild & Hk & Hreach).
  exists k. split; [exact Hk|]. split; [|exact Hty].
  eapply reaches_child; [exact Hreach | now apply child_value].
Qed.

(** [hasHook] holds exactly when a call of the identifier [useTranslation]
    lies anywhere below the function node, at whatever depth, also inside a
    function nested in it; and then [ensureTranslationHook] leaves the
    unit as it is, so that a component whose callback has the hook gets
    none of its own. *)
Theorem hasHook_below (ctx : TransformContext) (functionAST : ASTPath) :
  let h := heap ctx in
  (hasHook h functionAST = true
   <-> exists k call,
         (k <= length h)%nat
         /\ reaches h (S k) (value functionAST) call
         /\ check h "CallExpression" call = true
         /\ typeOf h (prop h call "callee") = "Identifier"%string
         /\ prop h (prop h call "callee") "name" = VStr (js "useTranslation"))
  /\ (hasHook h functionAST = true ->
      ensureTranslationHook ctx functionAST = ctx).
Proof.
  intros h. split.
  - unfold hasHook. rewrite existsb_exists. split.
    + intros (p & Hp & Hcall).
      apply findFrom_reaches in Hp as (k & Hk & Hreach & Hty).
      unfold isUseTranslationCall in Hcall.
      apply andb_true_iff in Hcall as [Hid Hname].
      apply String.eqb_eq in Hid. apply bool_decide_eq_true in Hname.
      exists k, (value p). split; [lia|]. now repeat split.
    + intros (k & call & Hk & Hreach & Hty & Hid & Hname).
      destruct (reaches_findFrom (S (length h)) h "CallExpression" k
                  (value functionAST) call Hreach ltac:(lia) Hty
                  functionAST eq_refl) as (p & Hp & Hpv).
      exists p. split; [exact Hp|].
      unfold isUseTranslationCall. rewrite Hpv, Hid, Hname.
      rewrite String.eqb_refl. now apply bool_decide_eq_true.
  - intros Hhook. unfold ensureTranslationHook. fold h. now rewrite Hhook.
Qed.
